(** * A consistent-hashing ring: the [ConsistentHash] class of
    [sample-implementation.js], embedded and verified.

    The class keeps a [Map] from ring positions to server names, a [Set] of
    registered servers and a sorted array of the positions.  Positions come
    from the first 32 bits of an MD5 digest.  The methods are embedded as
    computations in a small state-and-exception monad over the object's
    fields, statement by statement. *)

From Equations Require Import Equations.
From stdpp Require Import gmap strings list fin_maps sorting pretty.
From Stdlib Require Import ZArith Lia.

Local Open Scope Z_scope.

(** ** The digest used by [hash]

    [crypto.createHash("md5").update(key).digest("hex")] is Node's MD5
    (RFC 1321) of the UTF-8 bytes of [key], printed as 32 lowercase
    hexadecimal digits.  A [string] here is that byte sequence. *)

Module MD5.

Definition mask32 (x : Z) : Z := Z.land x 0xffffffff.

Definition lnot32 (x : Z) : Z := Z.lxor x 0xffffffff.

Definition rotl32 (x c : Z) : Z :=
  mask32 (Z.lor (Z.shiftl x c) (Z.shiftr x (32 - c))).

Definition shifts : list Z :=
  [ 7; 12; 17; 22; 7; 12; 17; 22; 7; 12; 17; 22; 7; 12; 17; 22;
    5; 9; 14; 20; 5; 9; 14; 20; 5; 9; 14; 20; 5; 9; 14; 20;
    4; 11; 16; 23; 4; 11; 16; 23; 4; 11; 16; 23; 4; 11; 16; 23;
    6; 10; 15; 21; 6; 10; 15; 21; 6; 10; 15; 21; 6; 10; 15; 21 ].

(** [floor (2^32 * |sin (i + 1)|)] for [i] in [0, 64). *)
Definition sines : list Z :=
  [ 0xd76aa478; 0xe8c7b756; 0x242070db; 0xc1bdceee;
    0xf57c0faf; 0x4787c62a; 0xa8304613; 0xfd469501;
    0x698098d8; 0x8b44f7af; 0xffff5bb1; 0x895cd7be;
    0x6b901122; 0xfd987193; 0xa679438e; 0x49b40821;
    0xf61e2562; 0xc040b340; 0x265e5a51; 0xe9b6c7aa;
    0xd62f105d; 0x02441453; 0xd8a1e681; 0xe7d3fbc8;
    0x21e1cde6; 0xc33707d6; 0xf4d50d87; 0x455a14ed;
    0xa9e3e905; 0xfcefa3f8; 0x676f02d9; 0x8d2a4c8a;
    0xfffa3942; 0x8771f681; 0x6d9d6122; 0xfde5380c;
    0xa4beea44; 0x4bdecfa9; 0xf6bb4b60; 0xbebfbc70;
    0x289b7ec6; 0xeaa127fa; 0xd4ef3085; 0x04881d05;
    0xd9d4d039; 0xe6db99e5; 0x1fa27cf8; 0xc4ac5665;
    0xf4292244; 0x432aff97; 0xab9423a7; 0xfc93a039;
    0x655b59c3; 0x8f0ccc92; 0xffeff47d; 0x85845dd1;
    0x6fa87e4f; 0xfe2ce6e0; 0xa3014314; 0x4e0811a1;
    0xf7537e82; 0xbd3af235; 0x2ad7d2bb; 0xeb86d391 ].

Definition byte_at (x : Z) (i : Z) : Z := Z.land (Z.shiftr x (8 * i)) 0xff.

(** The four bytes of a 32-bit word, least significant first. *)
Definition le_bytes4 (x : Z) : list Z :=
  [byte_at x 0; byte_at x 1; byte_at x 2; byte_at x 3].

Definition le_bytes8 (x : Z) : list Z :=
  le_bytes4 x ++ [byte_at x 4; byte_at x 5; byte_at x 6; byte_at x 7].

Definition word_of_le (bs : list Z) : Z :=
  foldr (fun b acc => b + 256 * acc) 0 bs.

Definition bytes_of_string (s : string) : list Z :=
  (fun c => Z.of_N (Ascii.N_of_ascii c)) <$> String.list_ascii_of_string s.

(** Padding: one [0x80] byte, zeros up to 56 modulo 64, then the bit
    length as 64 bits, least significant byte first. *)
Definition pad (msg : list Z) : list Z :=
  let len := Z.of_nat (length msg) in
  msg ++ [0x80] ++ replicate (Z.to_nat ((55 - len) mod 64)) 0
      ++ le_bytes8 (8 * len).

Fixpoint words (n : nat) (bs : list Z) : list Z :=
  match n with
  | O => []
  | S n' => word_of_le (take 4 bs) :: words n' (drop 4 bs)
  end.

Fixpoint blocks (n : nat) (bs : list Z) : list (list Z) :=
  match n with
  | O => []
  | S n' => words 16 (take 64 bs) :: blocks n' (drop 64 bs)
  end.

Definition regs : Type := Z * Z * Z * Z.

Definition step (M : list Z) (r : regs) (i : nat) : regs :=
  let '(a, b, c, d) := r in
  let '(f, g) :=
    if (i <? 16)%nat then
      (Z.lor (Z.land b c) (Z.land (lnot32 b) d), i)
    else if (i <? 32)%nat then
      (Z.lor (Z.land d b) (Z.land (lnot32 d) c), ((5 * i + 1) mod 16)%nat)
    else if (i <? 48)%nat then
      (Z.lxor (Z.lxor b c) d, ((3 * i + 5) mod 16)%nat)
    else
      (Z.lxor c (Z.lor b (lnot32 d)), ((7 * i) mod 16)%nat) in
  let f' := mask32 (f + a + nth i sines 0 + nth g M 0) in
  (d, mask32 (b + rotl32 f' (nth i shifts 0)), b, c).

Definition compress (r : regs) (M : list Z) : regs :=
  let '(a0, b0, c0, d0) := r in
  let '(a, b, c, d) := foldl (step M) r (seq 0 64) in
  (mask32 (a0 + a), mask32 (b0 + b), mask32 (c0 + c), mask32 (d0 + d)).

Definition init : regs := (0x67452301, 0xefcdab89, 0x98badcfe, 0x10325476).

Definition digest (msg : list Z) : list Z :=
  let p := pad msg in
  let '(a, b, c, d) := foldl compress init (blocks (length p / 64) p) in
  le_bytes4 a ++ le_bytes4 b ++ le_bytes4 c ++ le_bytes4 d.

Definition hexchar (n : Z) : Ascii.ascii :=
  Ascii.ascii_of_N (Z.to_N (if n <? 10 then 48 + n else 87 + n)).

Fixpoint hex (bs : list Z) : string :=
  match bs with
  | [] => EmptyString
  | b :: bs' => String (hexchar (b / 16)) (String (hexchar (b mod 16)) (hex bs'))
  end.

Definition hexdigest (key : string) : string :=
  hex (digest (bytes_of_string key)).

End MD5.

(** ** JavaScript values the class computes with *)

(** A JavaScript number that is either an integer or [NaN]. *)
Inductive jsnum : Type :=
| Num (z : Z)
| NaN.

Global Instance jsnum_eq_dec : EqDecision jsnum.
Proof. solve_decision. Defined.

(** How a method call completes: it returns a value or throws
    [new Error(msg)]. *)
Inductive completion (A : Type) : Type :=
| Normal (a : A)
| Throw (msg : string).
Arguments Normal {A} a.
Arguments Throw {A} msg.

(** [parseInt(s, 16)] on a string without sign, blanks or [0x] prefix: the
    longest prefix of hexadecimal digits, [NaN] when it is empty. *)
Definition hexval (c : Ascii.ascii) : option Z :=
  let n := Z.of_N (Ascii.N_of_ascii c) in
  if (48 <=? n) && (n <=? 57) then Some (n - 48)
  else if (97 <=? n) && (n <=? 102) then Some (n - 87)
  else if (65 <=? n) && (n <=? 70) then Some (n - 55)
  else None.

Fixpoint parseInt16_digits (acc : Z) (s : string) : Z :=
  match s with
  | String c s' =>
      match hexval c with
      | Some d => parseInt16_digits (16 * acc + d) s'
      | None => acc
      end
  | EmptyString => acc
  end.

Definition parseInt16 (s : string) : jsnum :=
  match s with
  | String c _ =>
      match hexval c with
      | Some _ => Num (parseInt16_digits 0 s)
      | None => NaN
      end
  | EmptyString => NaN
  end.

(** [x < y] and [x >= y] where [x] may be [undefined] (an array read out of
    range): a comparison with [undefined] is false. *)
Definition js_lt (x : option Z) (y : Z) : bool :=
  match x with Some a => a <? y | None => false end.

Definition js_ge (x : option Z) (y : Z) : bool :=
  match x with Some a => y <=? a | None => false end.

(** ** The object and its methods *)

Record ConsistentHash : Type := mkConsistentHash {
  virtualNodes : Z;
  ring : gmap Z string;            (* position -> server *)
  servers : gset string;
  sortedPositions : list Z
}.

(** [new ConsistentHash(virtualNodes)], and [new ConsistentHash()] with the
    default argument. *)
Definition constructor (virtualNodes : Z) : ConsistentHash :=
  {| virtualNodes := virtualNodes; ring := ∅; servers := ∅;
     sortedPositions := [] |}.

Definition constructor_default : ConsistentHash := constructor 150.

(** [hash(key)]: the first eight hexadecimal digits of the MD5 digest, read
    as a number.  The digest always starts with eight digits
    ([hash_parseInt] below), so the result is never [NaN]. *)
Definition hash (key : string) : Z :=
  match parseInt16 (String.substring 0 8 (MD5.hexdigest key)) with
  | Num z => z
  | NaN => 0
  end.
Arguments hash : simpl never.

(** A method body: reads and writes the fields of [this], then returns or
    throws. *)
Definition method (A : Type) : Type :=
  ConsistentHash → completion A * ConsistentHash.

Definition ret {A : Type} (a : A) : method A := λ this, (Normal a, this).

Definition throw {A : Type} (msg : string) : method A :=
  λ this, (Throw msg, this).

Definition bind {A B : Type} (m : method A) (k : A → method B) : method B :=
  λ this,
    match m this with
    | (Normal a, this') => k a this'
    | (Throw msg, this') => (Throw msg, this')
    end.

Definition field {A : Type} (f : ConsistentHash → A) : method A :=
  λ this, (Normal (f this), this).

Definition update (f : ConsistentHash → ConsistentHash) : method unit :=
  λ this, (Normal tt, f this).

Notation "x ← m ; k" := (bind m (λ x, k))
  (at level 20, m at level 100, k at level 200, only parsing, right associativity).
Notation "m ;; k" := (bind m (λ _, k))
  (at level 100, k at level 200, only parsing, right associativity).

(** [this.servers.add(server)], [this.servers.delete(server)],
    [this.ring.set(position, server)], [this.ring.delete(position)] and the
    assignment to [this.sortedPositions]. *)
Definition servers_add (server : string) (this : ConsistentHash) :=
  {| virtualNodes := virtualNodes this; ring := ring this;
     servers := {[server]} ∪ servers this;
     sortedPositions := sortedPositions this |}.

Definition servers_delete (server : string) (this : ConsistentHash) :=
  {| virtualNodes := virtualNodes this; ring := ring this;
     servers := servers this ∖ {[server]};
     sortedPositions := sortedPositions this |}.

Definition ring_set (position : Z) (server : string) (this : ConsistentHash) :=
  {| virtualNodes := virtualNodes this;
     ring := <[position := server]> (ring this);
     servers := servers this;
     sortedPositions := sortedPositions this |}.

Definition ring_delete (position : Z) (this : ConsistentHash) :=
  {| virtualNodes := virtualNodes this;
     ring := delete position (ring this);
     servers := servers this;
     sortedPositions := sortedPositions this |}.

Definition sortedPositions_assign (l : list Z) (this : ConsistentHash) :=
  {| virtualNodes := virtualNodes this; ring := ring this;
     servers := servers this; sortedPositions := l |}.

(** [for (let i = 0; i < n; i++) body(i)], over the values [i] takes; no
    body here changes the bound [this.virtualNodes]. *)
Fixpoint for_each {A : Type} (l : list A) (body : A → method unit) : method unit :=
  match l with
  | [] => ret tt
  | i :: l' => body i;; for_each l' body
  end.

(** The template literal [`${server}:${i}`]. *)
Definition virtualKey (server : string) (i : Z) : string :=
  server +:+ ":" +:+ pretty i.

(** [Array.from(this.ring.keys()).sort((a, b) => a - b)]: the keys of the
    map in ascending numeric order.  [Map] lists its keys in insertion
    order and [elements] in another one; sorting by a total order gives the
    same array from both. *)
Definition updateSortedPositions : method unit :=
  r ← field ring;
  update (sortedPositions_assign (merge_sort Z.le (elements (dom r)))).

Definition addServer (server : string) : method unit :=
  registered ← field servers;
  if decide (server ∈ registered) then ret tt
  else
    update (servers_add server);;
    n ← field virtualNodes;
    for_each (seqZ 0 n) (λ i,
      let position := hash (virtualKey server i) in
      update (ring_set position server));;
    updateSortedPositions.

Definition removeServer (server : string) : method unit :=
  registered ← field servers;
  if decide (server ∈ registered) then
    update (servers_delete server);;
    n ← field virtualNodes;
    for_each (seqZ 0 n) (λ i,
      let position := hash (virtualKey server i) in
      update (ring_delete position));;
    updateSortedPositions
  else ret tt.

(** The loop of [getServer]:
    [while (left < right) { mid = floor((left + right) / 2); ... }],
    returning the final [left]. *)
Equations? search (sp : list Z) (position : Z) (left right : nat) : nat
  by wf (right - left)%nat lt :=
  search sp position l r with decide (l < r)%nat => {
    | left _ =>
        let mid := ((l + r) / 2)%nat in
        if js_lt (sp !! mid) position
        then search sp position (mid + 1)%nat r
        else search sp position l mid;
    | right _ => l }.
Proof.
  all: pose proof (Nat.div_mod_eq (l + r) 2);
    pose proof (Nat.mod_upper_bound (l + r) 2); lia.
Qed.

(** [getServer(key)]; [None] is JavaScript's [undefined], which
    [Map.prototype.get] returns for a missing key. *)
Definition getServer (key : string) : method (option string) :=
  sp ← field sortedPositions;
  if decide (length sp = 0%nat) then throw "No servers available"
  else
    let position := hash key in
    let left := search sp position 0 (length sp - 1) in
    let serverPosition :=
      if js_ge (sp !! left) position then sp !! left else sp !! 0%nat in
    r ← field ring;
    ret (serverPosition ≫= (r !!.)).

(** The object [distribution] starts as the plain object [{}]; the map
    holds its own properties.  An assignment to a property creates or
    updates an own property, except for the name [__proto__]: that
    assignment reaches the setter [Object.prototype] provides, which
    ignores a value that is not an object, and no own property appears. *)
Definition object_assign (name : string) (x : jsnum) (o : gmap string jsnum)
  : gmap string jsnum :=
  if decide (name = "__proto__") then o else <[name := x]> o.

(** [distribution[server]++]: a name without own property reads as
    [undefined] or as the member of [Object.prototype] of that name (a
    function, or the prototype itself for [__proto__]); the increment of
    each is [NaN].  The property name of [undefined] is the string
    ["undefined"]. *)
Definition property_name (server : option string) : string :=
  default "undefined" server.

Definition increment (x : option jsnum) : jsnum :=
  match x with
  | Some (Num n) => Num (n + 1)
  | _ => NaN
  end.

Definition count_up (server : option string) (distribution : gmap string jsnum)
  : gmap string jsnum :=
  object_assign (property_name server)
    (increment (distribution !! property_name server)) distribution.

Fixpoint count_keys (keys : list string) (distribution : gmap string jsnum)
  : method (gmap string jsnum) :=
  match keys with
  | [] => ret distribution
  | key :: keys' =>
      server ← getServer key;
      count_keys keys' (count_up server distribution)
  end.

(** The sample keys [`key_${i}`] for [i] in [0, 10000). *)
Definition sampleKeys : list string :=
  (λ i, "key_" +:+ pretty i) <$> seqZ 0 10000.

(** [this.servers.forEach((server) => { distribution[server] = 0; })] *)
Definition zero_counts (registered : gset string) : gmap string jsnum :=
  set_fold (λ server distribution, object_assign server (Num 0) distribution)
    ∅ registered.

Definition getDistribution : method (gmap string jsnum) :=
  registered ← field servers;
  count_keys sampleKeys (zero_counts registered).

(** ** Sequences of public calls *)

Inductive call : Type :=
| AddServer (server : string)
| RemoveServer (server : string)
| GetServer (key : string)
| GetDistribution.

(** The object after a call (a caller may catch what the call throws). *)
Definition after (c : call) (this : ConsistentHash) : ConsistentHash :=
  match c with
  | AddServer s => snd (addServer s this)
  | RemoveServer s => snd (removeServer s this)
  | GetServer k => snd (getServer k this)
  | GetDistribution => snd (getDistribution this)
  end.

Definition run (calls : list call) (this : ConsistentHash) : ConsistentHash :=
  foldl (λ st c, after c st) this calls.

(** The states a ring built with [new ConsistentHash(n)] can be in. *)
Definition reachable (n : Z) (this : ConsistentHash) : Prop :=
  ∃ calls, this = run calls (constructor n).

(** ** Vocabulary of the statements *)

(** The ring positions of a server's virtual nodes,
    [hash(`${server}:${i}`)] for [i] in [0, n). *)
Definition positions (server : string) (n : Z) : list Z :=
  (λ i, hash (virtualKey server i)) <$> seqZ 0 n.

(** The ring after [addServer] and [removeServer] went through their loops. *)
Definition placed (server : string) (n : Z) (m : gmap Z string) : gmap Z string :=
  foldl (λ m p, <[p := server]> m) m (positions server n).

Definition cleared (server : string) (n : Z) (m : gmap Z string) : gmap Z string :=
  foldl (λ m p, delete p m) m (positions server n).

(** [p] is the clockwise successor of [h] among [sp]: the smallest element
    that is at least [h], or the smallest element of all when none is. *)
Definition successor_in (sp : list Z) (h p : Z) : Prop :=
  p ∈ sp ∧
  ((h ≤ p ∧ ∀ q, q ∈ sp → h ≤ q → p ≤ q) ∨
   ((∀ q, q ∈ sp → q < h) ∧ ∀ q, q ∈ sp → p ≤ q)).

Global Instance successor_in_dec sp h p : Decision (successor_in sp h p).
Proof.
  refine (cast_if (decide (p ∈ sp ∧
            ((h ≤ p ∧ Forall (λ q, h ≤ q → p ≤ q) sp) ∨
             (Forall (λ q, q < h) sp ∧ Forall (λ q, p ≤ q) sp)))));
    unfold successor_in; rewrite !Forall_forall in *; tauto.
Defined.

Global Instance completion_eq_dec {A : Type} `{EqDecision A} :
  EqDecision (completion A).
Proof. solve_decision. Defined.

(** The servers named by the [addServer] calls of a sequence. *)
Definition added (calls : list call) : list string :=
  omap (λ c, match c with AddServer s => Some s | _ => None end) calls.

(** No virtual node of one of the servers [names] shares its position with
    a virtual node of another of them. *)
Definition collision_free (n : Z) (names : list string) : Prop :=
  Forall (λ s, Forall (λ t, s = t ∨ Forall (.∉ positions t n) (positions s n))
                 names) names.

Global Instance collision_free_dec n names : Decision (collision_free n names).
Proof. unfold collision_free. apply _. Defined.

(** What every reachable state satisfies. *)
Record ring_ok (n : Z) (this : ConsistentHash) : Prop := {
  ok_nodes : virtualNodes this = n;
  ok_sorted : StronglySorted Z.lt (sortedPositions this);
  ok_keys : ∀ p, p ∈ sortedPositions this ↔ is_Some (ring this !! p);
  ok_owner : ∀ p s, ring this !! p = Some s →
                    s ∈ servers this ∧ p ∈ positions s n
}.

(** [new ConsistentHash(3)] with [server1], [server2] and [server3] added,
    as the demonstration does. *)
Definition demo_calls : list call :=
  [AddServer "server1"; AddServer "server2"; AddServer "server3"].

Definition demo : ConsistentHash := run demo_calls (constructor 3).


(** A server named like the accessor property of [Object.prototype]. *)
Definition proto_calls : list call := [AddServer "a"; AddServer "__proto__"].

(** Two servers whose first virtual nodes share position 727596760. *)
Definition colliding_calls : list call :=
  [AddServer "server30783"; AddServer "server54582"; RemoveServer "server30783"].

Ltac by_computation := refine (bool_decide_unpack _ _); vm_compute; exact I.

(** ** The rest of the file: [showRing] and the modulo comparison *)

(** The lines [showRing()] writes with [console.log], in order: the header
    ["\nRing state:"], then [`Position ${pos}: ${this.ring.get(pos)}`] for
    each element of [sortedPositions].  A missing entry prints as
    ["undefined"]. *)
Definition showRing (this : ConsistentHash) : list string :=
  String (Ascii.ascii_of_nat 10) "Ring state:"
  :: ((λ pos, "Position " +:+ pretty pos +:+ ": "
              +:+ default "undefined" (ring this !! pos))
        <$> sortedPositions this).

(** [simpleHash(key)] of [demonstrateSimpleHashing] has the body of [hash]. *)
Definition simpleHash (key : string) : Z := hash key.

(** [x % n] on integers: the remainder has the sign of [x], and [x % 0] is
    [NaN]; [x + 1]; and a number inside a template literal. *)
Definition js_rem (x n : Z) : jsnum :=
  if decide (n = 0) then NaN else Num (Z.rem x n).

Definition js_succ (x : jsnum) : jsnum :=
  match x with
  | Num z => Num (z + 1)
  | NaN => NaN
  end.

Definition js_show (x : jsnum) : string :=
  match x with
  | Num z => pretty z
  | NaN => "NaN"
  end.

(** [getServerSimple(key, numServers)]:
    [`server${(simpleHash(key) % numServers) + 1}`]. *)
Definition getServerSimple (key : string) (numServers : Z) : string :=
  "server" +:+ js_show (js_succ (js_rem (simpleHash key) numServers)).

(** Whether the last [addServer] or [removeServer] call that names [s] is
    an [addServer]. *)
Definition last_added (calls : list call) (s : string) : bool :=
  foldl (λ b c,
           match c with
           | AddServer t => if decide (t = s) then true else b
           | RemoveServer t => if decide (t = s) then false else b
           | _ => b
           end) false calls.

(** The sum of the counts of a distribution object, [NaN] as soon as one
    of them is. *)
Definition add_count (x acc : jsnum) : jsnum :=
  match x, acc with
  | Num z, Num a => Num (z + a)
  | _, _ => NaN
  end.

Definition total (distribution : gmap string jsnum) : jsnum :=
  map_fold (λ _, add_count) (Num 0) distribution.

(** The character [:] (code 58), and the strings without it. *)
Definition colon : Ascii.ascii :=
  Ascii.Ascii false true false true true true false false.

Fixpoint no_colon (s : string) : Prop :=
  match s with
  | EmptyString => True
  | String c s' => c ≠ colon ∧ no_colon s'
  end.

(** ** Sample computations *)

Example md5_empty : MD5.hexdigest "" = "d41d8cd98f00b204e9800998ecf8427e"%string.
Proof. vm_compute. reflexivity. Qed.
Example md5_abc : MD5.hexdigest "abc" = "900150983cd24fb0d6963f7d28e17f72"%string.
Proof. vm_compute. reflexivity. Qed.
Example md5_two_blocks :
  MD5.hexdigest "12345678901234567890123456789012345678901234567890123456789012345678901234567890"
  = "57edf4a22be3c955ac49da2e2107b67a"%string.
Proof. vm_compute. reflexivity. Qed.
Example hash_event : hash "event_1234" = 4253464409.
Proof. vm_compute. reflexivity. Qed.
Example hash_collision : hash "server30783:0" = hash "server54582:0".
Proof. vm_compute. reflexivity. Qed.
Example demo_positions :
  (λ p, (p, ring demo !! p)) <$> sortedPositions demo
  = [(95124969, Some "server2"); (507543037, Some "server1");
     (769617553, Some "server3"); (1249866395, Some "server3");
     (1989059308, Some "server1"); (2116151383, Some "server1");
     (2612874610, Some "server3"); (2859378841, Some "server2");
     (3343527525, Some "server2")]%string.
Proof. vm_compute. reflexivity. Qed.
Example demo_lookups :
  (λ key, fst (getServer key demo))
    <$> ["event_1234"; "event_5678"; "event_9999"; "event_4567"; "event_8888"]%string
  = [Normal (Some "server2"); Normal (Some "server2"); Normal (Some "server3");
     Normal (Some "server2"); Normal (Some "server1")]%string.
Proof. vm_compute. reflexivity. Qed.
Example demo_lookups_with_server4 :
  (λ key, fst (getServer key (after (AddServer "server4") demo)))
    <$> ["event_1234"; "event_5678"; "event_9999"; "event_4567"; "event_8888";
         "key_9"]%string
  = [Normal (Some "server2"); Normal (Some "server2"); Normal (Some "server3");
     Normal (Some "server2"); Normal (Some "server1"); Normal (Some "server4")]%string.
Proof. vm_compute. reflexivity. Qed.
Example colliding_state :
  (elements (servers (run colliding_calls (constructor 1))),
   sortedPositions (run colliding_calls (constructor 1)),
   fst (getServer "event_1234" (run colliding_calls (constructor 1))))
  = (["server54582"%string], [], Throw "No servers available").
Proof. vm_compute. reflexivity. Qed.

(** ** The monad and the loops *)

Lemma for_each_update {A : Type} (f : A → ConsistentHash → ConsistentHash)
    (l : list A) (this : ConsistentHash) :
  for_each l (λ i, update (f i)) this = (Normal tt, foldl (λ st i, f i st) this l).
Proof.
  revert this. induction l as [|i l IH]; intros this; [done|].
  cbn [for_each foldl]. unfold bind at 1. unfold update at 1. apply IH.
Qed.

Lemma foldl_ring_set server (ps : list Z) this :
  foldl (λ st p, ring_set p server st) this ps
  = {| virtualNodes := virtualNodes this;
       ring := foldl (λ m p, <[p := server]> m) (ring this) ps;
       servers := servers this;
       sortedPositions := sortedPositions this |}.
Proof.
  revert this. induction ps as [|p ps IH]; intros this; [by destruct this|].
  cbn [foldl]. rewrite IH. done.
Qed.

Lemma foldl_ring_delete (ps : list Z) this :
  foldl (λ st p, ring_delete p st) this ps
  = {| virtualNodes := virtualNodes this;
       ring := foldl (λ m p, delete p m) (ring this) ps;
       servers := servers this;
       sortedPositions := sortedPositions this |}.
Proof.
  revert this. induction ps as [|p ps IH]; intros this; [by destruct this|].
  cbn [foldl]. rewrite IH. done.
Qed.

Lemma foldl_fmap_r {A B C : Type} (f : A → C → A) (g : B → C) (a : A) (l : list B) :
  foldl (λ x i, f x (g i)) a l = foldl f a (g <$> l).
Proof. revert a. induction l as [|i l IH]; intros a; [done|]. cbn. apply IH. Qed.

Lemma addServer_eq server this :
  addServer server this =
  (Normal tt,
   if decide (server ∈ servers this) then this
   else
     let r := placed server (virtualNodes this) (ring this) in
     {| virtualNodes := virtualNodes this; ring := r;
        servers := {[server]} ∪ servers this;
        sortedPositions := merge_sort Z.le (elements (dom r)) |}).
Proof.
  unfold addServer, bind at 1, field at 1.
  destruct (decide (server ∈ servers this)) as [Hin|Hin]; [done|].
  unfold bind at 1, update at 1, bind at 1, field at 1, bind at 1.
  rewrite (for_each_update (λ i, ring_set (hash (virtualKey server i)) server)).
  rewrite (foldl_fmap_r (λ st p, ring_set p server st)
             (λ i, hash (virtualKey server i))).
  rewrite foldl_ring_set. done.
Qed.

Lemma removeServer_eq server this :
  removeServer server this =
  (Normal tt,
   if decide (server ∈ servers this) then
     let r := cleared server (virtualNodes this) (ring this) in
     {| virtualNodes := virtualNodes this; ring := r;
        servers := servers this ∖ {[server]};
        sortedPositions := merge_sort Z.le (elements (dom r)) |}
   else this).
Proof.
  unfold removeServer, bind at 1, field at 1.
  destruct (decide (server ∈ servers this)) as [Hin|Hin]; [|done].
  unfold bind at 1, update at 1, bind at 1, field at 1, bind at 1.
  rewrite (for_each_update (λ i, ring_delete (hash (virtualKey server i)))).
  rewrite (foldl_fmap_r (λ st p, ring_delete p st)
             (λ i, hash (virtualKey server i))).
  rewrite foldl_ring_delete. done.
Qed.

Lemma getServer_frame key this : snd (getServer key this) = this.
Proof.
  unfold getServer, bind, field. destruct (decide _); done.
Qed.

Lemma count_keys_frame keys d this : snd (count_keys keys d this) = this.
Proof.
  revert d. induction keys as [|k keys IH]; intros d; [done|].
  cbn [count_keys]. unfold bind.
  pose proof (getServer_frame k this) as Hk.
  destruct (getServer k this) as [[server|msg] this']; cbn in Hk; subst this'.
  - apply IH.
  - done.
Qed.

Lemma getDistribution_frame this : snd (getDistribution this) = this.
Proof. unfold getDistribution, bind, field. apply count_keys_frame. Qed.

Lemma run_snoc calls c this : run (calls ++ [c]) this = after c (run calls this).
Proof. unfold run. by rewrite foldl_app. Qed.

Lemma lookup_placed server n (m : gmap Z string) q :
  placed server n m !! q
  = if decide (q ∈ positions server n) then Some server else m !! q.
Proof.
  unfold placed. generalize (positions server n) as ps. intros ps. revert m.
  induction ps as [|p ps IH]; intros m; cbn [foldl].
  - rewrite decide_False; [done|]. apply not_elem_of_nil.
  - rewrite IH. destruct (decide (q ∈ ps)) as [Hq|Hq].
    + rewrite decide_True; [done|]. by right.
    + destruct (decide (q = p)) as [->|Hne].
      * rewrite lookup_insert_eq, decide_True; [done|]. by left.
      * rewrite lookup_insert_ne by done. rewrite decide_False; [done|].
        intros [?|?]%elem_of_cons; done.
Qed.

Lemma lookup_cleared server n (m : gmap Z string) q :
  cleared server n m !! q
  = if decide (q ∈ positions server n) then None else m !! q.
Proof.
  unfold cleared. generalize (positions server n) as ps. intros ps. revert m.
  induction ps as [|p ps IH]; intros m; cbn [foldl].
  - rewrite decide_False; [done|]. apply not_elem_of_nil.
  - rewrite IH. destruct (decide (q ∈ ps)) as [Hq|Hq].
    + rewrite decide_True; [done|]. by right.
    + destruct (decide (q = p)) as [->|Hne].
      * rewrite lookup_delete_eq, decide_True; [done|]. by left.
      * rewrite lookup_delete_ne by done. rewrite decide_False; [done|].
        intros [?|?]%elem_of_cons; done.
Qed.

Lemma elem_of_positions server n p :
  p ∈ positions server n ↔ ∃ i, 0 ≤ i < n ∧ p = hash (virtualKey server i).
Proof.
  unfold positions. rewrite list_elem_of_fmap. split.
  - intros (i & -> & Hi). apply elem_of_seqZ in Hi. exists i. split; [lia|done].
  - intros (i & Hi & ->). exists i. split; [done|]. apply elem_of_seqZ. lia.
Qed.

(** ** The sorted array *)

Lemma sorted_lt_of_le (l : list Z) :
  StronglySorted Z.le l → NoDup l → StronglySorted Z.lt l.
Proof.
  induction 1 as [|x l Hs IH Hall]; intros Hnd; [constructor|].
  apply NoDup_cons in Hnd as [Hx Hnd]. constructor; [auto|].
  rewrite Forall_forall in *. intros y Hy. specialize (Hall y Hy).
  assert (x ≠ y) by (intros ->; done). lia.
Qed.

Lemma sorted_keys (m : gmap Z string) :
  StronglySorted Z.lt (merge_sort Z.le (elements (dom m))) ∧
  ∀ p, p ∈ merge_sort Z.le (elements (dom m)) ↔ is_Some (m !! p).
Proof.
  split.
  - apply sorted_lt_of_le.
    + apply StronglySorted_merge_sort; apply _.
    + rewrite merge_sort_Permutation. apply NoDup_elements.
  - intros p. by rewrite merge_sort_Permutation, elem_of_elements, elem_of_dom.
Qed.

Lemma sorted_lookup_lt (sp : list Z) (i j : nat) (x y : Z) :
  StronglySorted Z.lt sp → (i < j)%nat →
  sp !! i = Some x → sp !! j = Some y → x < y.
Proof.
  intros Hs. revert i j. induction Hs as [|a l Hs IH Hall]; intros i j Hij Hi Hj.
  - by rewrite lookup_nil in Hi.
  - destruct j as [|j]; [lia|]. destruct i as [|i]; cbn in Hi, Hj.
    + injection Hi as <-. rewrite Forall_forall in Hall. apply Hall.
      by eapply list_elem_of_lookup_2.
    + apply (IH i j); [lia|done..].
Qed.

Lemma sorted_lookup_le (sp : list Z) (i j : nat) (x y : Z) :
  StronglySorted Z.lt sp → (i ≤ j)%nat →
  sp !! i = Some x → sp !! j = Some y → x ≤ y.
Proof.
  intros Hs Hij Hi Hj. destruct (decide (i = j)) as [->|Hne].
  - rewrite Hi in Hj. injection Hj as ->. lia.
  - pose proof (sorted_lookup_lt sp i j x y Hs ltac:(lia) Hi Hj). lia.
Qed.

(** ** Invariant of the reachable states *)

Lemma ring_ok_constructor n : ring_ok n (constructor n).
Proof.
  split; cbn.
  - done.
  - constructor.
  - intros p. rewrite lookup_empty. split; [by intros ?%not_elem_of_nil|by intros [? ?]].
  - intros p s. by rewrite lookup_empty.
Qed.

Lemma ring_ok_addServer n server this :
  ring_ok n this → ring_ok n (snd (addServer server this)).
Proof.
  intros [Hn Hs Hk Ho]. rewrite addServer_eq. cbn [snd].
  destruct (decide (server ∈ servers this)) as [Hin|Hin]; [done|].
  split; cbn.
  - done.
  - apply sorted_keys.
  - apply sorted_keys.
  - intros p s. rewrite lookup_placed, Hn.
    destruct (decide (p ∈ positions server n)) as [Hp|Hp].
    + intros [= <-]. split; [|done]. apply elem_of_union. left.
      by apply elem_of_singleton.
    + intros [Hs' Hp']%Ho. split; [|done]. apply elem_of_union. by right.
Qed.

Lemma ring_ok_removeServer n server this :
  ring_ok n this → ring_ok n (snd (removeServer server this)).
Proof.
  intros [Hn Hs Hk Ho]. rewrite removeServer_eq. cbn [snd].
  destruct (decide (server ∈ servers this)) as [Hin|Hin]; [|done].
  split; cbn.
  - done.
  - apply sorted_keys.
  - apply sorted_keys.
  - intros p s. rewrite lookup_cleared, Hn.
    destruct (decide (p ∈ positions server n)) as [Hp|Hp]; [done|].
    intros [Hs' Hp']%Ho. split; [|done].
    apply elem_of_difference. split; [done|].
    intros ->%elem_of_singleton. done.
Qed.

Lemma ring_ok_after n c this : ring_ok n this → ring_ok n (after c this).
Proof.
  intros Hok. destruct c as [s|s|k|]; cbn [after].
  - by apply ring_ok_addServer.
  - by apply ring_ok_removeServer.
  - by rewrite getServer_frame.
  - by rewrite getDistribution_frame.
Qed.

Lemma ring_ok_run n calls : ring_ok n (run calls (constructor n)).
Proof.
  induction calls as [|c calls IH] using rev_ind.
  - apply ring_ok_constructor.
  - rewrite run_snoc. by apply ring_ok_after.
Qed.

(** ** The binary search *)

Lemma search_step sp position (l r : nat) :
  search sp position l r =
  if decide (l < r)%nat then
    if js_lt (sp !! ((l + r) / 2)%nat) position
    then search sp position ((l + r) / 2 + 1)%nat r
    else search sp position l ((l + r) / 2)%nat
  else l.
Proof.
  rewrite (search_equation_1 sp position l r).
  destruct (decide (l < r)%nat); reflexivity.
Qed.

Lemma search_spec sp position (hi : nat) :
  StronglySorted Z.lt sp → (hi < length sp)%nat →
  ∀ k l r, (r - l)%nat = k → (l ≤ r)%nat → (r ≤ hi)%nat →
    (∀ i x, (i < l)%nat → sp !! i = Some x → x < position) →
    (∀ i x, (r ≤ i)%nat → (i < hi)%nat → sp !! i = Some x → position ≤ x) →
    let j := search sp position l r in
    (j ≤ hi)%nat ∧
    (∀ i x, (i < j)%nat → sp !! i = Some x → x < position) ∧
    (∀ i x, (j ≤ i)%nat → (i < hi)%nat → sp !! i = Some x → position ≤ x).
Proof.
  intros Hs Hhi k. induction k as [k IH] using lt_wf_ind.
  intros l r Hk Hlr Hr Hlow Hhigh. cbn zeta. rewrite search_step.
  destruct (decide (l < r)%nat) as [Hlt|Hge].
  - set (mid := ((l + r) / 2)%nat).
    assert (l ≤ mid ∧ mid < r)%nat as [Hm1 Hm2].
    { pose proof (Nat.div_mod_eq (l + r) 2).
      pose proof (Nat.mod_upper_bound (l + r) 2). subst mid. lia. }
    destruct (lookup_lt_is_Some_2 sp mid) as [y Hy]; [lia|].
    rewrite Hy. cbn [js_lt]. destruct (Z.ltb_spec y position) as [Hyp|Hyp].
    + apply (IH (r - (mid + 1))%nat); [lia|done|lia|done| |done].
      intros i x Hi Hx.
      pose proof (sorted_lookup_le sp i mid x y Hs ltac:(lia) Hx Hy). lia.
    + apply (IH (mid - l)%nat); [lia|done|lia|lia|done|].
      intros i x Hi Hi' Hx.
      pose proof (sorted_lookup_le sp mid i y x Hs ltac:(lia) Hy Hx). lia.
  - assert (l = r) as -> by lia. auto.
Qed.

Lemma successor_in_unique sp h p p' :
  successor_in sp h p → successor_in sp h p' → p = p'.
Proof.
  intros [Hp [[H1 H2]|[H1 H2]]] [Hp' [[H1' H2']|[H1' H2']]].
  - pose proof (H2 _ Hp' H1'). pose proof (H2' _ Hp H1). lia.
  - pose proof (H1' _ Hp). lia.
  - pose proof (H1 _ Hp'). lia.
  - pose proof (H2 _ Hp'). pose proof (H2' _ Hp). lia.
Qed.


Lemma getServer_spec n this key :
  ring_ok n this → sortedPositions this ≠ [] →
  ∃ p, successor_in (sortedPositions this) (hash key) p ∧
       getServer key this = (Normal (ring this !! p), this).
Proof.
  intros [Hn Hs Hk Ho] Hne. unfold getServer, bind, field, ret.
  set (sp := sortedPositions this) in *.
  destruct (decide (length sp = 0%nat)) as [Hlen|Hlen].
  { by apply nil_length_inv in Hlen. }
  set (h := hash key).
  destruct (search_spec sp h (length sp - 1) Hs ltac:(lia)
              (length sp - 1 - 0)%nat 0%nat (length sp - 1)%nat)
    as (Hj & Hlow & Hhigh); [done|lia|lia|intros; lia|intros; lia|].
  set (j := search sp h 0 (length sp - 1)) in *.
  destruct (lookup_lt_is_Some_2 sp j) as [x Hx]; [lia|].
  rewrite Hx. cbn [js_ge]. destruct (Z.leb_spec h x) as [Hhx|Hhx].
  - exists x. split; [|done]. split; [by eapply list_elem_of_lookup_2|].
    left. split; [done|]. intros q [i Hq]%list_elem_of_lookup_1 Hhq.
    destruct (decide (i < j)%nat) as [Hij|Hij].
    + pose proof (Hlow i q Hij Hq). lia.
    + apply (sorted_lookup_le sp j i x q Hs); [lia|done..].
  - assert (j = (length sp - 1)%nat) as Hjlast.
    { destruct (decide (j < length sp - 1)%nat) as [Hlt|?]; [|lia].
      pose proof (Hhigh j x ltac:(lia) Hlt Hx). lia. }
    destruct (lookup_lt_is_Some_2 sp 0%nat) as [y Hy]; [lia|].
    rewrite Hy. exists y. split; [|done].
    split; [by eapply list_elem_of_lookup_2|].
    right. split; intros q [i Hq]%list_elem_of_lookup_1.
    + pose proof (lookup_lt_Some _ _ _ Hq).
      pose proof (sorted_lookup_le sp i j q x Hs ltac:(lia) Hq Hx). lia.
    + apply (sorted_lookup_le sp 0%nat i y q Hs); [lia|done..].
Qed.

Lemma getServer_empty this key :
  sortedPositions this = [] →
  getServer key this = (Throw "No servers available", this).
Proof. intros Hsp. unfold getServer, bind, field. by rewrite Hsp. Qed.

Lemma sortedPositions_nil_iff n this :
  ring_ok n this → sortedPositions this = [] ↔ ring this = ∅.
Proof.
  intros [_ _ Hk _]. split.
  - intros Hsp. apply map_empty. intros p.
    destruct (ring this !! p) as [s|] eqn:Hp; [|done].
    assert (p ∈ sortedPositions this) as Hin by (apply Hk; eauto).
    rewrite Hsp in Hin. by apply not_elem_of_nil in Hin.
  - intros Hr. destruct (sortedPositions this) as [|p sp] eqn:Hsp; [done|].
    assert (is_Some (ring this !! p)) as [s Hs].
    { apply Hk. by left. }
    by rewrite Hr, lookup_empty in Hs.
Qed.

(** [getServer] on a state with at least one ring entry: the server at the
    clockwise successor of the key's hash. *)
Lemma getServer_some n this key :
  ring_ok n this → ring this ≠ ∅ →
  ∃ p server,
    successor_in (sortedPositions this) (hash key) p ∧
    ring this !! p = Some server ∧
    server ∈ servers this ∧
    getServer key this = (Normal (Some server), this).
Proof.
  intros Hok Hne.
  destruct (getServer_spec n this key Hok) as (p & Hp & Hget).
  { by rewrite (sortedPositions_nil_iff n this Hok). }
  destruct Hok as [_ _ Hk Ho].
  destruct (proj1 (Hk p) (proj1 Hp)) as [server Hs].
  exists p, server. rewrite <-Hs. split_and!; [done|done| |done].
  by apply (Ho p).
Qed.

(** ** Lookup, the sorted array and membership changes *)

(** C1: in a state with at least one ring entry, [getServer(key)] returns
    the ring entry of the smallest sorted position that is at least
    [hash(key)], and of the smallest position of all when there is none
    (wraparound). *)
Theorem getServer_clockwise_successor (n : Z) (calls : list call) (key : string) :
  ring (run calls (constructor n)) ≠ ∅ →
  ∃ p server,
    successor_in (sortedPositions (run calls (constructor n))) (hash key) p ∧
    ring (run calls (constructor n)) !! p = Some server ∧
    getServer key (run calls (constructor n))
    = (Normal (Some server), run calls (constructor n)).
Proof.
  intros Hne.
  destruct (getServer_some n _ key (ring_ok_run n calls) Hne)
    as (p & server & Hp & Hs & _ & Hget).
  by exists p, server.
Qed.

(** C5: after the construction and after every call, [sortedPositions] is
    the keys of [ring] in ascending order: strictly increasing, with the
    same elements; lookups, which may come at any point of a call sequence,
    see it so. *)
Theorem sortedPositions_is_sorted_keys (n : Z) (calls : list call) :
  StronglySorted Z.lt (sortedPositions (run calls (constructor n))) ∧
  ∀ p, p ∈ sortedPositions (run calls (constructor n))
       ↔ is_Some (ring (run calls (constructor n)) !! p).
Proof. destruct (ring_ok_run n calls) as [_ Hs Hk _]. done. Qed.

(** C10: in every reachable state each server stored in [ring] is in
    [servers], and [getServer] on a ring with at least one entry returns a
    registered server. *)
Theorem ring_values_registered (n : Z) (calls : list call) :
  (∀ p s, ring (run calls (constructor n)) !! p = Some s
          → s ∈ servers (run calls (constructor n))) ∧
  (ring (run calls (constructor n)) ≠ ∅ →
   ∀ key, ∃ s, s ∈ servers (run calls (constructor n)) ∧
               fst (getServer key (run calls (constructor n))) = Normal (Some s)).
Proof.
  pose proof (ring_ok_run n calls) as Hok. split.
  - intros p s Hp. by apply (ok_owner _ _ Hok p).
  - intros Hne key.
    destruct (getServer_some n _ key Hok Hne) as (p & s & _ & _ & Hs & Hget).
    exists s. by rewrite Hget.
Qed.

(** C6: after [addServer(s)] then [removeServer(s)], from any reachable
    state, [ring] has no entry at a virtual-node position of [s], [s] is
    not in [servers], and [getServer] returns [s] for no key. *)
Theorem add_then_remove_complete (n : Z) (calls : list call) (s key : string) :
  (∀ i, 0 ≤ i < n →
        ring (run (calls ++ [AddServer s; RemoveServer s]) (constructor n))
          !! hash (virtualKey s i) = None) ∧
  (s ∉ servers (run (calls ++ [AddServer s; RemoveServer s]) (constructor n))) ∧
  fst (getServer key (run (calls ++ [AddServer s; RemoveServer s]) (constructor n)))
    ≠ Normal (Some s).
Proof.
  pose proof (ring_ok_run n (calls ++ [AddServer s; RemoveServer s])) as Hok.
  assert (s ∉ servers (run (calls ++ [AddServer s; RemoveServer s]) (constructor n)))
    as Hnot.
  { replace (calls ++ [AddServer s; RemoveServer s])
      with ((calls ++ [AddServer s]) ++ [RemoveServer s]) by by rewrite <-app_assoc.
    rewrite run_snoc. cbn [after]. rewrite removeServer_eq. cbn [snd].
    destruct (decide _) as [Hin|Hin]; [|done]. cbn.
    intros [_ Hs]%elem_of_difference. apply Hs. by apply elem_of_singleton. }
  split_and!; [|done|].
  - intros i Hi.
    destruct (ring _ !! hash (virtualKey s i)) as [t|] eqn:Ht; [|done].
    exfalso.
    replace (calls ++ [AddServer s; RemoveServer s])
      with ((calls ++ [AddServer s]) ++ [RemoveServer s]) in Ht, Hnot
      by by rewrite <-app_assoc.
    rewrite run_snoc in Ht, Hnot. cbn [after] in Ht, Hnot.
    rewrite removeServer_eq in Ht, Hnot. cbn [snd] in Ht, Hnot.
    pose proof (ring_ok_run n (calls ++ [AddServer s])) as Hok1.
    destruct (decide _) as [Hin|Hin].
    + cbn in Ht. rewrite lookup_cleared, (ok_nodes _ _ Hok1) in Ht.
      rewrite decide_True in Ht; [done|].
      apply elem_of_positions. by exists i.
    + rewrite run_snoc in Hin. cbn [after] in Hin. rewrite addServer_eq in Hin.
      cbn [snd] in Hin. apply Hin. destruct (decide _) as [?|?]; [done|].
      cbn. apply elem_of_union. left. by apply elem_of_singleton.
  - intros Hget.
    destruct (decide (ring (run (calls ++ [AddServer s; RemoveServer s])
                              (constructor n)) = ∅)) as [He|Hne].
    + rewrite getServer_empty in Hget; [done|].
      by apply (sortedPositions_nil_iff n _ Hok).
    + destruct (getServer_some n _ key Hok Hne) as (p & t & _ & _ & Ht & Hget').
      rewrite Hget' in Hget. cbn in Hget. by injection Hget as ->.
Qed.

Lemma size_foldl_insert_le (s : string) (ps : list Z) (m : gmap Z string) :
  (size (foldl (λ m p, <[p := s]> m) m ps) ≤ size m + length ps)%nat.
Proof.
  revert m. induction ps as [|p ps IH]; intros m; cbn [foldl length]; [lia|].
  etrans; [apply IH|]. rewrite map_size_insert. destruct (m !! p); cbn; lia.
Qed.

Lemma size_foldl_insert_NoDup (s : string) (ps : list Z) (m : gmap Z string) :
  NoDup ps → (∀ p, p ∈ ps → m !! p = None) →
  size (foldl (λ m p, <[p := s]> m) m ps) = (size m + length ps)%nat.
Proof.
  intros Hnd. revert m. induction Hnd as [|p ps Hp Hnd IH]; intros m Hm;
    cbn [foldl length]; [lia|].
  rewrite IH.
  - rewrite map_size_insert_None; [lia|]. apply Hm. by left.
  - intros q Hq. rewrite lookup_insert_ne; [apply Hm; by right|].
    intros ->. done.
Qed.

(** C7: [addServer(s)] on a newly constructed ring with [v] virtual nodes
    per server leaves at most [v] entries in [ring], exactly [v] unless two
    of the virtual-node hashes of [s] coincide, and every entry maps
    to [s]. *)
Theorem addServer_virtual_node_count (v : Z) (s : string) :
  0 ≤ v →
  (∀ p x, ring (snd (addServer s (constructor v))) !! p = Some x → x = s) ∧
  Z.of_nat (size (ring (snd (addServer s (constructor v))))) ≤ v ∧
  ((∀ i j, 0 ≤ i < v → 0 ≤ j < v →
           hash (virtualKey s i) = hash (virtualKey s j) → i = j) →
   Z.of_nat (size (ring (snd (addServer s (constructor v))))) = v).
Proof.
  intros Hv. rewrite addServer_eq. cbn [snd].
  rewrite decide_False by apply not_elem_of_empty. cbn.
  assert (length (positions s v) = Z.to_nat v) as Hlen.
  { unfold positions. by rewrite length_fmap, length_seqZ. }
  split_and!.
  - intros p x. rewrite lookup_placed, lookup_empty.
    destruct (decide _); [by intros [= <-]|done].
  - pose proof (size_foldl_insert_le s (positions s v) ∅) as Hle.
    fold (placed s v ∅) in Hle. rewrite map_size_empty in Hle. lia.
  - intros Hinj. unfold placed. rewrite size_foldl_insert_NoDup.
    + rewrite map_size_empty. lia.
    + unfold positions. apply NoDup_fmap_2_strong; [|apply NoDup_seqZ].
      intros i j Hi%elem_of_seqZ Hj%elem_of_seqZ. apply Hinj; lia.
    + intros p _. apply lookup_empty.
Qed.

(** C8: [addServer(s)] with [s] registered and [removeServer(s)] with [s]
    not registered leave every field as it was and return normally;
    [addServer(s)] twice in a row ends in the state of calling it once. *)
Theorem redundant_membership_calls (s : string) (this : ConsistentHash) :
  (s ∈ servers this → addServer s this = (Normal tt, this)) ∧
  addServer s (snd (addServer s this)) = (Normal tt, snd (addServer s this)) ∧
  (s ∉ servers this → removeServer s this = (Normal tt, this)) ∧
  fst (addServer s this) = Normal tt ∧
  fst (removeServer s this) = Normal tt.
Proof.
  split_and!.
  - intros Hin. rewrite addServer_eq. by rewrite decide_True.
  - rewrite (addServer_eq s (snd _)). rewrite decide_True; [done|].
    rewrite addServer_eq. cbn [snd]. destruct (decide _) as [?|?]; [done|].
    cbn. apply elem_of_union. left. by apply elem_of_singleton.
  - intros Hin. rewrite removeServer_eq. by rewrite decide_False.
  - by rewrite addServer_eq.
  - by rewrite removeServer_eq.
Qed.

Lemma reachable_ok n this : reachable n this → ring_ok n this.
Proof. intros [calls ->]. apply ring_ok_run. Qed.




(** ** Rings without position collisions between servers *)

Lemma collision_free_disjoint n names s t p :
  collision_free n names → s ∈ names → t ∈ names → s ≠ t →
  p ∈ positions s n → p ∉ positions t n.
Proof.
  intros Hfree Hs Ht Hne Hp. unfold collision_free in Hfree.
  rewrite Forall_forall in Hfree. specialize (Hfree s Hs).
  rewrite Forall_forall in Hfree. destruct (Hfree t Ht) as [?|Hall]; [done|].
  rewrite Forall_forall in Hall. by apply Hall.
Qed.

Lemma added_snoc calls c : added (calls ++ [c]) = added calls ++ added [c].
Proof. unfold added. apply omap_app. Qed.

(** Without such collisions every registered server holds all its virtual
    nodes. *)
Lemma registered_hold_positions n names calls :
  collision_free n names →
  (∀ s, s ∈ added calls → s ∈ names) →
  (∀ s, s ∈ servers (run calls (constructor n)) → s ∈ added calls) ∧
  (∀ s p, s ∈ servers (run calls (constructor n)) → p ∈ positions s n →
          ring (run calls (constructor n)) !! p = Some s).
Proof.
  intros Hfree. induction calls as [|c calls IH] using rev_ind; intros Hnames.
  { split; [intros s []%elem_of_empty|intros s p []%elem_of_empty]. }
  rewrite added_snoc in Hnames |- *.
  destruct IH as [IH1 IH2].
  { intros s Hs. apply Hnames, elem_of_app. by left. }
  pose proof (ring_ok_run n calls) as Hok. rewrite run_snoc.
  set (this := run calls (constructor n)) in *.
  destruct c as [s|s|k|]; cbn [after].
  - rewrite addServer_eq. cbn [snd].
    destruct (decide (s ∈ servers this)) as [Hin|Hin].
    { split; [|done]. intros t Ht. apply elem_of_app. left. by apply IH1. }
    cbn. rewrite (ok_nodes _ _ Hok). split.
    + intros t [->%elem_of_singleton|Ht]%elem_of_union; apply elem_of_app.
      * right. cbn. by left.
      * left. by apply IH1.
    + intros t p [->%elem_of_singleton|Ht]%elem_of_union Hp;
        rewrite lookup_placed.
      * by rewrite decide_True.
      * rewrite decide_False; [by apply IH2|].
        apply (collision_free_disjoint n names t s); [done| | |by intros ->|done].
        -- apply Hnames, elem_of_app. left. by apply IH1.
        -- apply Hnames, elem_of_app. right. cbn. by left.
  - rewrite removeServer_eq. cbn [snd].
    destruct (decide (s ∈ servers this)) as [Hin|Hin].
    2:{ split; [|done]. intros t Ht. apply elem_of_app. left. by apply IH1. }
    cbn. rewrite (ok_nodes _ _ Hok). split.
    + intros t [Ht _]%elem_of_difference. apply elem_of_app. left. by apply IH1.
    + intros t p [Ht Hts]%elem_of_difference Hp. rewrite lookup_cleared.
      rewrite decide_False; [by apply IH2|].
      apply (collision_free_disjoint n names t s); [done| | | |done].
      * apply Hnames, elem_of_app. left. by apply IH1.
      * apply Hnames, elem_of_app. left. by apply IH1.
      * intros ->. apply Hts. by apply elem_of_singleton.
  - rewrite getServer_frame. split; [|done].
    intros t Ht. apply elem_of_app. left. by apply IH1.
  - rewrite getDistribution_frame. split; [|done].
    intros t Ht. apply elem_of_app. left. by apply IH1.
Qed.

(** In any reachable state [getServer] throws exactly when [ring] has no
    entry, which is so whenever no server is registered. *)
Lemma getServer_throws_iff_ring_empty n calls key :
  (fst (getServer key (run calls (constructor n))) = Throw "No servers available"
   ↔ ring (run calls (constructor n)) = ∅) ∧
  (servers (run calls (constructor n)) = ∅ → ring (run calls (constructor n)) = ∅).
Proof.
  pose proof (ring_ok_run n calls) as Hok.
  set (this := run calls (constructor n)) in *. split; [split|].
  - intros Hthrow. destruct (decide (ring this = ∅)) as [|Hne]; [done|].
    destruct (getServer_some n this key Hok Hne) as (p & s & _ & _ & _ & Hget).
    by rewrite Hget in Hthrow.
  - intros He. rewrite getServer_empty; [done|].
    by apply (sortedPositions_nil_iff n _ Hok).
  - intros Hs. apply map_empty. intros p.
    destruct (ring this !! p) as [s|] eqn:Hp; [|done].
    apply (ok_owner _ _ Hok) in Hp as [Hin _]. rewrite Hs in Hin.
    by apply elem_of_empty in Hin.
Qed.

(** C2, as the code has it: with a positive number of virtual nodes and no
    two different added servers sharing a virtual-node position,
    [getServer] throws ["No servers available"] exactly when no server is
    registered, and otherwise returns a registered server. *)
Theorem getServer_fails_iff_no_servers (n : Z) (calls : list call) (key : string) :
  0 < n →
  collision_free n (added calls) →
  (fst (getServer key (run calls (constructor n))) = Throw "No servers available"
   ↔ servers (run calls (constructor n)) = ∅) ∧
  (servers (run calls (constructor n)) ≠ ∅ →
   ∃ s, s ∈ servers (run calls (constructor n)) ∧
        fst (getServer key (run calls (constructor n))) = Normal (Some s)).
Proof.
  intros Hn Hfree.
  destruct (registered_hold_positions n (added calls) calls Hfree) as [_ Hhold];
    [done|].
  destruct (getServer_throws_iff_ring_empty n calls key) as [Hthrow Hnone].
  pose proof (ring_ok_run n calls) as Hok.
  set (this := run calls (constructor n)) in *.
  assert (servers this ≠ ∅ →
          ∃ s, s ∈ servers this ∧ fst (getServer key this) = Normal (Some s))
    as Hsome.
  { intros [s Hs]%set_choose_L.
    assert (ring this ≠ ∅) as Hne.
    { intros He. specialize (Hhold s (hash (virtualKey s 0)) Hs).
      rewrite He, lookup_empty in Hhold. discriminate Hhold.
      apply elem_of_positions. exists 0. split; [lia|done]. }
    destruct (getServer_some n this key Hok Hne) as (p & t & _ & _ & Ht & Hget).
    exists t. by rewrite Hget. }
  split; [split|done].
  - intros Hfail. destruct (decide (servers this = ∅)) as [|Hne]; [done|].
    destruct (Hsome Hne) as (s & _ & Hget). by rewrite Hget in Hfail.
  - intros Hs. by apply Hthrow, Hnone.
Qed.


(** ** The distribution *)

Lemma lookup_foldr_zero (l : list string) (s : string) :
  foldr (λ server distribution, object_assign server (Num 0) distribution) ∅ l
    !! s
  = if decide (s ∈ l ∧ s ≠ "__proto__"%string) then Some (Num 0) else None.
Proof.
  induction l as [|x l IH]; cbn [foldr].
  - rewrite lookup_empty, decide_False; [done|].
    by intros [?%not_elem_of_nil _].
  - unfold object_assign at 1.
    destruct (decide (x = "__proto__"%string)) as [->|Hx].
    + rewrite IH. apply decide_ext. rewrite elem_of_cons. split.
      * intros [? ?]. split; [by right|done].
      * by intros [[->|?] ?].
    + destruct (decide (s = x)) as [->|Hne].
      * rewrite lookup_insert_eq, decide_True; [done|]. split; [by left|done].
      * rewrite lookup_insert_ne, IH by done. apply decide_ext.
        rewrite elem_of_cons. split; [intros [? ?]; split; [by right|done]|].
        by intros [[->|?] ?].
Qed.

(** The loop over [servers] leaves a zero for every registered name but
    [__proto__]. *)
Lemma zero_counts_eq (S : gset string) :
  zero_counts S = gset_to_gmap (Num 0) (S ∖ {["__proto__"%string]}).
Proof.
  apply map_eq. intros s. unfold zero_counts, set_fold. cbn [compose].
  rewrite lookup_foldr_zero. destruct (decide _) as [[Hs Hne]|Hno].
  - symmetry. apply lookup_gset_to_gmap_Some. split; [|done].
    apply elem_of_difference. rewrite elem_of_elements in Hs.
    split; [done|]. by intros ?%elem_of_singleton.
  - symmetry. apply lookup_gset_to_gmap_None.
    intros [Hs Hne]%elem_of_difference. apply Hno.
    rewrite elem_of_elements. split; [done|].
    intros ->. apply Hne. by apply elem_of_singleton.
Qed.

Lemma count_up_proto (d : gmap string jsnum) :
  count_up (Some "__proto__"%string) d = d.
Proof. unfold count_up, object_assign. by rewrite decide_True. Qed.

Lemma count_up_other (d : gmap string jsnum) (t : string) :
  t ≠ "__proto__"%string →
  count_up (Some t) d = <[t := increment (d !! t)]> d.
Proof. intros Ht. unfold count_up, object_assign. by rewrite decide_False. Qed.

(** The loop over the sample keys, from counts [c] for the names in [S],
    when every key goes to a name in [S] or to [__proto__]. *)
Lemma count_keys_counts this (S : gset string) (keys : list string) :
  "__proto__"%string ∉ S →
  (∀ k, ∃ s, (s ∈ S ∨ s = "__proto__"%string) ∧
             getServer k this = (Normal (Some s), this)) →
  ∀ (d : gmap string jsnum) (c : string → Z),
    dom d = S → (∀ s, s ∈ S → d !! s = Some (Num (c s))) →
    ∃ d', count_keys keys d this = (Normal d', this) ∧ dom d' = S ∧
          ∀ s, s ∈ S →
               d' !! s = Some (Num (c s + Z.of_nat (length
                 (filter (λ k, fst (getServer k this) = Normal (Some s)) keys)))).
Proof.
  intros Hproto Hget. induction keys as [|k keys IH]; intros d c Hdom Hd.
  - exists d. split_and!; [done..|]. intros s Hs. rewrite Hd by done.
    cbn. do 2 f_equal. lia.
  - destruct (Hget k) as (t & [Ht| ->] & Hk).
    + assert (t ≠ "__proto__"%string) as Hne by (by intros ->).
      assert (count_keys (k :: keys) d this
              = count_keys keys (<[t := Num (c t + 1)]> d) this) as ->.
      { cbn [count_keys]. unfold bind at 1. rewrite Hk.
        rewrite count_up_other by done. by rewrite (Hd t Ht). }
      destruct (IH (<[t := Num (c t + 1)]> d)
                  (λ s, if decide (s = t) then c s + 1 else c s))
        as (d' & Hrun & Hdom' & Hd').
      * rewrite dom_insert_L, Hdom. apply set_eq. intros x.
        rewrite elem_of_union, elem_of_singleton.
        split; [by intros [->|?]|by right].
      * intros s Hs. destruct (decide (s = t)) as [->|Hst].
        -- by rewrite lookup_insert_eq.
        -- rewrite lookup_insert_ne by done. by apply Hd.
      * exists d'. split_and!; [done..|]. intros s Hs. rewrite (Hd' s Hs).
        rewrite filter_cons, Hk. cbn [fst].
        destruct (decide (s = t)) as [->|Hst].
        -- rewrite decide_True by done. cbn [length]. do 2 f_equal. lia.
        -- rewrite decide_False; [done|]. intros [= ->]. done.
    + assert (count_keys (k :: keys) d this = count_keys keys d this) as ->.
      { cbn [count_keys]. unfold bind at 1. rewrite Hk.
        by rewrite count_up_proto. }
      destruct (IH d c Hdom Hd) as (d' & Hrun & Hdom' & Hd').
      exists d'. split_and!; [done..|]. intros s Hs. rewrite (Hd' s Hs).
      rewrite filter_cons, Hk. cbn [fst].
      rewrite decide_False; [done|]. intros [= <-]. done.
Qed.

Lemma sampleKeys_cons : ∃ k keys, sampleKeys = k :: keys.
Proof.
  unfold sampleKeys. rewrite (seqZ_cons 0 10000) by lia. cbn [fmap list_fmap].
  eauto.
Qed.

(** X20: [getDistribution] changes no field.  In a reachable state with a
    ring entry it returns an object whose own properties are the
    registered names other than [__proto__], each with the number of
    sample keys that [getServer] gives to that server; with an empty ring
    the exception of [getServer] comes through. *)
Theorem getDistribution_own_counts (n : Z) (calls : list call) :
  snd (getDistribution (run calls (constructor n))) = run calls (constructor n) ∧
  (ring (run calls (constructor n)) ≠ ∅ →
   ∃ d, fst (getDistribution (run calls (constructor n))) = Normal d ∧
        dom d = servers (run calls (constructor n)) ∖ {["__proto__"%string]} ∧
        ∀ s, s ∈ servers (run calls (constructor n)) → s ≠ "__proto__"%string →
             d !! s = Some (Num (Z.of_nat (length
               (filter (λ k, fst (getServer k (run calls (constructor n)))
                             = Normal (Some s)) sampleKeys))))) ∧
  (ring (run calls (constructor n)) = ∅ →
   fst (getDistribution (run calls (constructor n)))
   = Throw "No servers available").
Proof.
  pose proof (ring_ok_run n calls) as Hok.
  set (this := run calls (constructor n)) in *. split_and!.
  - apply getDistribution_frame.
  - intros Hne. unfold getDistribution, bind at 1, field at 1.
    rewrite zero_counts_eq.
    destruct (count_keys_counts this (servers this ∖ {["__proto__"%string]})
                sampleKeys)
      with (d := gset_to_gmap (Num 0) (servers this ∖ {["__proto__"%string]}))
           (c := λ _ : string, 0)
      as (d & Hrun & Hdom & Hd).
    + intros [_ Hp]%elem_of_difference. apply Hp. by apply elem_of_singleton.
    + intros k.
      destruct (getServer_some n this k Hok Hne) as (p & s & _ & _ & Hs & Hget).
      exists s. split; [|done].
      destruct (decide (s = "__proto__"%string)) as [->|Hsp]; [by right|].
      left. apply elem_of_difference. split; [done|].
      by intros ?%elem_of_singleton.
    + apply dom_gset_to_gmap.
    + intros s Hs. by rewrite lookup_gset_to_gmap_Some.
    + exists d. rewrite Hrun. split_and!; [done..|]. intros s Hs Hsp.
      rewrite (Hd s).
      * do 2 f_equal.
      * apply elem_of_difference. split; [done|]. by intros ?%elem_of_singleton.
  - intros He. unfold getDistribution, bind at 1, field at 1.
    destruct sampleKeys_cons as (k & keys & ->). cbn [count_keys].
    unfold bind at 1. rewrite getServer_empty; [done|].
    by apply (sortedPositions_nil_iff n _ Hok).
Qed.

(** ** [hash] never meets [NaN] *)

Lemma hexval_hexchar x : 0 ≤ x < 16 → hexval (MD5.hexchar x) = Some x.
Proof.
  intros Hx.
  assert (x = 0 ∨ x = 1 ∨ x = 2 ∨ x = 3 ∨ x = 4 ∨ x = 5 ∨ x = 6 ∨ x = 7 ∨
          x = 8 ∨ x = 9 ∨ x = 10 ∨ x = 11 ∨ x = 12 ∨ x = 13 ∨ x = 14 ∨ x = 15)
    as Hcases by lia.
  repeat (destruct Hcases as [->|Hcases]; [reflexivity|]). by subst x.
Qed.

Lemma byte_at_range x i : 0 ≤ MD5.byte_at x i < 256.
Proof.
  unfold MD5.byte_at. change 0xff with (Z.ones 8).
  rewrite Z.land_ones by lia. apply Z.mod_pos_bound. lia.
Qed.

Lemma parseInt16_hex_word b0 b1 b2 b3 (rest : list Z) :
  0 ≤ b0 < 256 → 0 ≤ b1 < 256 → 0 ≤ b2 < 256 → 0 ≤ b3 < 256 →
  parseInt16 (String.substring 0 8 (MD5.hex ([b0; b1; b2; b3] ++ rest)))
  = Num (((b0 * 256 + b1) * 256 + b2) * 256 + b3).
Proof.
  intros H0 H1 H2 H3.
  cbn [app MD5.hex String.substring].
  unfold parseInt16. cbn [parseInt16_digits].
  rewrite !hexval_hexchar
    by (split; [apply Z.div_pos || apply Z.mod_pos_bound
               |apply Z.div_lt_upper_bound || apply Z.mod_pos_bound]; lia).
  f_equal.
  pose proof (Z.div_mod b0 16 ltac:(lia)).
  pose proof (Z.div_mod b1 16 ltac:(lia)).
  pose proof (Z.div_mod b2 16 ltac:(lia)).
  pose proof (Z.div_mod b3 16 ltac:(lia)).
  destruct (MD5.hex rest); cbn [String.substring parseInt16_digits]; lia.
Qed.

Lemma hash_parseInt key :
  parseInt16 (String.substring 0 8 (MD5.hexdigest key)) = Num (hash key) ∧
  0 ≤ hash key < 2 ^ 32.
Proof.
  unfold hash, MD5.hexdigest, MD5.digest.
  destruct (foldl MD5.compress MD5.init _) as [[[a b] c] d].
  generalize (MD5.le_bytes4 b ++ MD5.le_bytes4 c ++ MD5.le_bytes4 d).
  intros rest. unfold MD5.le_bytes4.
  pose proof (byte_at_range a 0). pose proof (byte_at_range a 1).
  pose proof (byte_at_range a 2). pose proof (byte_at_range a 3).
  rewrite !parseInt16_hex_word by done. split; [done|lia].
Qed.

(** ** The demonstration ring, and inputs that tell the cases apart *)

Lemma demo_ring_nonempty : ring demo ≠ ∅.
Proof. by_computation. Qed.

Lemma demo_reachable : reachable 3 demo.
Proof. by exists demo_calls. Qed.

(** The hash of ["event_1234"] is past the last position, so the lookup
    wraps around to the first one. *)
Lemma getServer_clockwise_successor_witness :
  ring (run demo_calls (constructor 3)) ≠ ∅ ∧
  ∃ p server,
    successor_in (sortedPositions (run demo_calls (constructor 3)))
      (hash "event_1234") p ∧
    ring (run demo_calls (constructor 3)) !! p = Some server ∧
    getServer "event_1234" (run demo_calls (constructor 3))
    = (Normal (Some server), run demo_calls (constructor 3)).
Proof.
  split; [exact demo_ring_nonempty|].
  exact (getServer_clockwise_successor 3 demo_calls "event_1234" demo_ring_nonempty).
Defined.

(** A registered server and still ["No servers available"]: the removal of
    [server30783] deleted the one position of [server54582]. *)
Lemma getServer_fails_with_registered_server :
  0 < virtualNodes (run colliding_calls (constructor 1)) ∧
  "server54582" ∈ servers (run colliding_calls (constructor 1)) ∧
  fst (getServer "event_1234" (run colliding_calls (constructor 1)))
  = Throw "No servers available" ∧
  ¬ (fst (getServer "event_1234" (run colliding_calls (constructor 1)))
     = Throw "No servers available"
     ↔ servers (run colliding_calls (constructor 1)) = ∅).
Proof.
  assert ("server54582" ∈ servers (run colliding_calls (constructor 1))) as Hin
    by by_computation.
  assert (fst (getServer "event_1234" (run colliding_calls (constructor 1)))
          = Throw "No servers available") as Hthrow
    by (vm_compute; reflexivity).
  split_and!; [by vm_compute|done|done|].
  intros [Hempty _]. rewrite (Hempty Hthrow) in Hin. by apply elem_of_empty in Hin.
Qed.

Lemma getServer_fails_iff_no_servers_witness :
  0 < 3 ∧ collision_free 3 (added demo_calls) ∧
  (fst (getServer "event_1234" (run demo_calls (constructor 3)))
   = Throw "No servers available"
   ↔ servers (run demo_calls (constructor 3)) = ∅) ∧
  (servers (run demo_calls (constructor 3)) ≠ ∅ →
   ∃ s, s ∈ servers (run demo_calls (constructor 3)) ∧
        fst (getServer "event_1234" (run demo_calls (constructor 3)))
        = Normal (Some s)).
Proof.
  assert (collision_free 3 (added demo_calls)) as Hfree by by_computation.
  split; [lia|]. split; [exact Hfree|].
  exact (getServer_fails_iff_no_servers 3 demo_calls "event_1234" ltac:(lia) Hfree).
Defined.




(** The three virtual nodes of [server1] are at three positions. *)
Lemma addServer_virtual_node_count_witness :
  0 ≤ 3 ∧
  (∀ i j, 0 ≤ i < 3 → 0 ≤ j < 3 →
          hash (virtualKey "server1" i) = hash (virtualKey "server1" j) → i = j) ∧
  Z.of_nat (size (ring (snd (addServer "server1" (constructor 3))))) = 3.
Proof.
  assert (∀ i j, 0 ≤ i < 3 → 0 ≤ j < 3 →
                 hash (virtualKey "server1" i) = hash (virtualKey "server1" j)
                 → i = j) as Hinj.
  { intros i j Hi Hj Heq.
    assert (i = 0 ∨ i = 1 ∨ i = 2) as Hi' by lia.
    assert (j = 0 ∨ j = 1 ∨ j = 2) as Hj' by lia.
    destruct Hi' as [-> | [-> | ->]], Hj' as [-> | [-> | ->]]; try reflexivity;
      vm_compute in Heq; discriminate Heq. }
  split; [lia|]. split; [exact Hinj|].
  exact (proj2 (proj2 (addServer_virtual_node_count 3 "server1" ltac:(lia))) Hinj).
Defined.

Lemma ring_values_registered_witness :
  ring (run demo_calls (constructor 3)) ≠ ∅ ∧
  ∃ s, s ∈ servers (run demo_calls (constructor 3)) ∧
       fst (getServer "event_9999" (run demo_calls (constructor 3)))
       = Normal (Some s).
Proof.
  split; [exact demo_ring_nonempty|].
  exact (proj2 (ring_values_registered 3 demo_calls) demo_ring_nonempty
           "event_9999").
Defined.

Lemma getDistribution_own_counts_witness :
  ring (run demo_calls (constructor 3)) ≠ ∅ ∧
  ∃ d, fst (getDistribution (run demo_calls (constructor 3))) = Normal d ∧
       dom d = servers (run demo_calls (constructor 3)) ∖ {["__proto__"%string]} ∧
       ∀ s, s ∈ servers (run demo_calls (constructor 3)) → s ≠ "__proto__"%string →
            d !! s = Some (Num (Z.of_nat (length
              (filter (λ k, fst (getServer k (run demo_calls (constructor 3)))
                            = Normal (Some s)) sampleKeys)))).
Proof.
  split; [exact demo_ring_nonempty|].
  exact (proj1 (proj2 (getDistribution_own_counts 3 demo_calls))
           demo_ring_nonempty).
Defined.

Lemma redundant_membership_calls_witness :
  "server1" ∈ servers demo ∧ addServer "server1" demo = (Normal tt, demo) ∧
  ("server9" ∉ servers demo) ∧ removeServer "server9" demo = (Normal tt, demo).
Proof.
  assert ("server1" ∈ servers demo) as Hin by by_computation.
  assert ("server9" ∉ servers demo) as Hout by by_computation.
  split_and!; [exact Hin| |exact Hout|].
  - exact (proj1 (redundant_membership_calls "server1" demo) Hin).
  - exact (proj1 (proj2 (proj2 (redundant_membership_calls "server9" demo))) Hout).
Defined.

(** ** Further properties of the class *)

(** X1: [hash] is the big-endian reading of the first four digest bytes: a
    number from 0 to 2^32 - 1, and [parseInt] never yields [NaN]. *)
Theorem hash_reads_four_bytes (key : string) :
  ∃ b0 b1 b2 b3 rest,
    MD5.digest (MD5.bytes_of_string key) = b0 :: b1 :: b2 :: b3 :: rest ∧
    hash key = ((b0 * 256 + b1) * 256 + b2) * 256 + b3 ∧
    parseInt16 (String.substring 0 8 (MD5.hexdigest key)) = Num (hash key) ∧
    0 ≤ hash key < 2 ^ 32.
Proof.
  unfold hash, MD5.hexdigest, MD5.digest.
  destruct (foldl MD5.compress MD5.init _) as [[[a b] c] d].
  exists (MD5.byte_at a 0), (MD5.byte_at a 1), (MD5.byte_at a 2),
    (MD5.byte_at a 3), (MD5.le_bytes4 b ++ MD5.le_bytes4 c ++ MD5.le_bytes4 d).
  generalize (MD5.le_bytes4 b ++ MD5.le_bytes4 c ++ MD5.le_bytes4 d).
  intros rest. unfold MD5.le_bytes4.
  pose proof (byte_at_range a 0). pose proof (byte_at_range a 1).
  pose proof (byte_at_range a 2). pose proof (byte_at_range a 3).
  rewrite !(parseInt16_hex_word _ _ _ _ rest) by done.
  split_and!; [done|done|done|lia|lia].
Qed.

(** X2: whatever the array holds, the loop of [getServer] ends with [left]
    between the bounds it started from, so [sortedPositions[left]] is read
    inside a non-empty array. *)
Theorem search_within_bounds (sp : list Z) (position : Z) (l r : nat) :
  (l ≤ r)%nat →
  (l ≤ search sp position l r)%nat ∧ (search sp position l r ≤ r)%nat.
Proof.
  remember (r - l)%nat as k eqn:Hk. revert l r Hk.
  induction k as [k IH] using lt_wf_ind. intros l r Hk Hlr.
  rewrite search_step. destruct (decide (l < r)%nat) as [Hlt|Hge]; [|lia].
  assert (l ≤ (l + r) / 2 ∧ (l + r) / 2 < r)%nat as [Hm1 Hm2].
  { pose proof (Nat.div_mod_eq (l + r) 2).
    pose proof (Nat.mod_upper_bound (l + r) 2). lia. }
  destruct (js_lt _ _).
  - destruct (IH (r - ((l + r) / 2 + 1))%nat ltac:(lia)
                ((l + r) / 2 + 1)%nat r eq_refl ltac:(lia)). lia.
  - destruct (IH ((l + r) / 2 - l)%nat ltac:(lia)
                l ((l + r) / 2)%nat eq_refl ltac:(lia)). lia.
Qed.

Lemma search_within_bounds_witness :
  (0 ≤ 3)%nat ∧
  (0 ≤ search [1; 5; 9; 12]%Z 6%Z 0 3)%nat ∧ (search [1; 5; 9; 12]%Z 6%Z 0 3 ≤ 3)%nat.
Proof.
  split; [lia|]. exact (search_within_bounds [1; 5; 9; 12] 6 0%nat 3%nat ltac:(lia)).
Defined.

(** X3: on a strictly increasing non-empty array the loop of [getServer]
    returns the index [j] with every earlier element below [position] and
    every element from [j] up to, but not including, the last one at least
    [position]; the last element is the one the loop never compares. *)
Theorem search_lower_bound (sp : list Z) (position : Z) :
  StronglySorted Z.lt sp → sp ≠ [] →
  (search sp position 0 (length sp - 1) < length sp)%nat ∧
  (∀ i x, (i < search sp position 0 (length sp - 1))%nat →
          sp !! i = Some x → x < position) ∧
  (∀ i x, (search sp position 0 (length sp - 1) ≤ i)%nat →
          (i < length sp - 1)%nat → sp !! i = Some x → position ≤ x).
Proof.
  intros Hs Hne.
  assert (length sp ≠ 0%nat) as Hlen by (by intros ?%nil_length_inv).
  destruct (search_spec sp position (length sp - 1) Hs ltac:(lia)
              (length sp - 1 - 0)%nat 0%nat (length sp - 1)%nat)
    as (Hj & Hlow & Hhigh); [done|lia|lia|intros; lia|intros; lia|].
  split_and!; [lia|done|done].
Qed.

Lemma search_lower_bound_witness :
  StronglySorted Z.lt [1; 5; 9; 12] ∧ [1; 5; 9; 12] ≠ @nil Z ∧
  search [1; 5; 9; 12]%Z 6%Z 0 3 = 2%nat ∧
  (search [1; 5; 9; 12]%Z 6%Z 0 (length [1; 5; 9; 12]%Z - 1) < length [1; 5; 9; 12]%Z)%nat.
Proof.
  assert (StronglySorted Z.lt [1; 5; 9; 12]) as Hs by by_computation.
  assert ([1; 5; 9; 12] ≠ @nil Z) as Hne by discriminate.
  split_and!; [exact Hs|exact Hne|by vm_compute|].
  exact (proj1 (search_lower_bound [1; 5; 9; 12] 6 Hs Hne)).
Defined.

(** X4: in every reachable state [virtualNodes] is what the constructor got,
    and each ring entry sits at [hash(`${server}:${i}`)] of the server it
    names, for some [i] from 0 to [virtualNodes - 1]. *)
Theorem ring_entries_are_virtual_nodes (n : Z) (calls : list call) :
  virtualNodes (run calls (constructor n)) = n ∧
  ∀ p s, ring (run calls (constructor n)) !! p = Some s →
         ∃ i, 0 ≤ i < n ∧ p = hash (virtualKey s i).
Proof.
  destruct (ring_ok_run n calls) as [Hn _ _ Ho]. split; [done|].
  intros p s Hp. apply elem_of_positions. by apply (Ho p s).
Qed.

(** X5: a ring constructed with zero or a negative number of virtual nodes
    never gets an entry: whatever servers are added, [getServer] throws
    ["No servers available"] for every key. *)
Theorem nonpositive_virtualNodes_never_serves (n : Z) (calls : list call)
    (key : string) :
  n ≤ 0 →
  ring (run calls (constructor n)) = ∅ ∧
  fst (getServer key (run calls (constructor n))) = Throw "No servers available".
Proof.
  intros Hn. pose proof (ring_ok_run n calls) as Hok.
  assert (ring (run calls (constructor n)) = ∅) as He.
  { apply map_empty. intros p.
    destruct (ring _ !! p) as [s|] eqn:Hp; [|done].
    apply (ok_owner _ _ Hok) in Hp as [_ (i & Hi & _)%elem_of_positions]. lia. }
  split; [done|]. rewrite getServer_empty; [done|].
  by apply (sortedPositions_nil_iff n _ Hok).
Qed.

Lemma nonpositive_virtualNodes_never_serves_witness :
  0 ≤ 0 ∧
  "server1" ∈ servers (run demo_calls (constructor 0)) ∧
  fst (getServer "event_1234" (run demo_calls (constructor 0)))
  = Throw "No servers available".
Proof.
  split; [lia|]. split; [by_computation|].
  exact (proj2 (nonpositive_virtualNodes_never_serves 0 demo_calls "event_1234"
                  ltac:(lia))).
Defined.

(** X6: a server is registered exactly when the last [addServer] or
    [removeServer] call naming it is an [addServer]. *)
Theorem servers_follow_last_call (n : Z) (calls : list call) (s : string) :
  s ∈ servers (run calls (constructor n)) ↔ last_added calls s = true.
Proof.
  induction calls as [|c calls IH] using rev_ind.
  { cbn. split; [by intros ?%elem_of_empty|done]. }
  rewrite run_snoc. unfold last_added. rewrite foldl_app. cbn [foldl].
  fold (last_added calls s). set (this := run calls (constructor n)) in *.
  destruct c as [t|t|k|]; cbn [after].
  - rewrite addServer_eq. cbn [snd].
    destruct (decide (t = s)) as [->|Hne].
    + split; [done|]. intros _. destruct (decide _); [done|].
      cbn. apply elem_of_union. left. by apply elem_of_singleton.
    + rewrite <-IH. destruct (decide _); [done|]. cbn.
      rewrite elem_of_union, elem_of_singleton. split; [|by right].
      by intros [->|?].
  - rewrite removeServer_eq. cbn [snd].
    destruct (decide (t = s)) as [->|Hne].
    + split; [|done]. destruct (decide _) as [?|Hout]; [|done].
      cbn. intros [_ Hs]%elem_of_difference. exfalso. apply Hs.
      by apply elem_of_singleton.
    + rewrite <-IH. destruct (decide _); [|done]. cbn.
      rewrite elem_of_difference, elem_of_singleton. split; [by intros [? _]|].
      intros Hs. split; [done|]. by intros ->.
  - by rewrite getServer_frame.
  - by rewrite getDistribution_frame.
Qed.

Lemma StronglySorted_lt_NoDup (l : list Z) : StronglySorted Z.lt l → NoDup l.
Proof.
  induction 1 as [|x l Hs IH Hall]; constructor; [|done].
  intros Hx. rewrite Forall_forall in Hall. specialize (Hall x Hx). lia.
Qed.

(** In a state that satisfies the invariant the array is exactly what
    [updateSortedPositions] would assign. *)
Lemma sortedPositions_eq n this :
  ring_ok n this →
  sortedPositions this = merge_sort Z.le (elements (dom (ring this))).
Proof.
  intros [_ Hs Hk _]. destruct (sorted_keys (ring this)) as [Hs' Hk'].
  apply (StronglySorted_unique_strong Z.lt); [intros; lia|done|done|].
  apply NoDup_Permutation; [by apply StronglySorted_lt_NoDup..|].
  intros p. by rewrite Hk, Hk'.
Qed.

Lemma cleared_placed server n (m : gmap Z string) :
  Forall (λ p, m !! p = None) (positions server n) →
  cleared server n (placed server n m) = m.
Proof.
  intros Hfree. rewrite Forall_forall in Hfree. apply map_eq. intros p.
  rewrite lookup_cleared. destruct (decide _) as [Hp|Hp].
  - symmetry. by apply Hfree.
  - rewrite lookup_placed. by rewrite decide_False.
Qed.

(** X7: [addServer(s)] then [removeServer(s)], for [s] not registered and
    with none of its virtual-node positions taken, gives back the state it
    started from, field by field. *)
Theorem add_then_remove_restores (n : Z) (this : ConsistentHash) (s : string) :
  reachable n this →
  s ∉ servers this →
  Forall (λ p, ring this !! p = None) (positions s n) →
  snd (removeServer s (snd (addServer s this))) = this.
Proof.
  intros Hok%reachable_ok Hout Hfree.
  pose proof (sortedPositions_eq n this Hok) as Hsp.
  pose proof (ok_nodes _ _ Hok) as Hn.
  rewrite addServer_eq. cbn [snd]. rewrite decide_False by done.
  rewrite removeServer_eq. cbn [snd virtualNodes ring servers].
  rewrite decide_True.
  2:{ apply elem_of_union. left. by apply elem_of_singleton. }
  destruct this as [v r S sp]. cbn in *. subst v.
  rewrite cleared_placed by done. f_equal; [|done].
  apply set_eq. intros x.
  rewrite elem_of_difference, elem_of_union, elem_of_singleton.
  split; [by intros [[->|?] ?]|]. intros Hx. split; [by right|]. by intros ->.
Qed.

Lemma add_then_remove_restores_witness :
  reachable 3 demo ∧ ("server4" ∉ servers demo) ∧
  Forall (λ p, ring demo !! p = None) (positions "server4" 3) ∧
  snd (removeServer "server4" (snd (addServer "server4" demo))) = demo.
Proof.
  assert ("server4" ∉ servers demo) as Hout by by_computation.
  assert (Forall (λ p, ring demo !! p = None) (positions "server4" 3)) as Hfree
    by by_computation.
  split_and!; [exact demo_reachable|exact Hout|exact Hfree|].
  exact (add_then_remove_restores 3 demo "server4" demo_reachable Hout Hfree).
Defined.

(** X8: when no two different added servers share a virtual-node position,
    [removeServer(s)] then [addServer(s)] of a registered [s] gives back
    the state it started from. *)
Theorem remove_then_add_restores (n : Z) (calls : list call) (s : string) :
  collision_free n (added calls) →
  s ∈ servers (run calls (constructor n)) →
  snd (addServer s (snd (removeServer s (run calls (constructor n)))))
  = run calls (constructor n).
Proof.
  intros Hfree Hin.
  destruct (registered_hold_positions n (added calls) calls Hfree) as [_ Hhold];
    [done|].
  pose proof (ring_ok_run n calls) as Hok.
  pose proof (sortedPositions_eq n _ Hok) as Hsp.
  pose proof (ok_nodes _ _ Hok) as Hn.
  set (this := run calls (constructor n)) in *.
  rewrite removeServer_eq. cbn [snd]. rewrite decide_True by done.
  rewrite addServer_eq. cbn [snd virtualNodes ring servers].
  rewrite decide_False.
  2:{ intros [_ Hs]%elem_of_difference. apply Hs. by apply elem_of_singleton. }
  destruct this as [v r S sp]. cbn in *. subst v.
  assert (placed s n (cleared s n r) = r) as ->.
  { apply map_eq. intros p. rewrite lookup_placed.
    destruct (decide _) as [Hp|Hp].
    - symmetry. by apply Hhold.
    - rewrite lookup_cleared. by rewrite decide_False. }
  f_equal; [|done]. apply set_eq. intros x.
  rewrite elem_of_union, elem_of_difference, elem_of_singleton.
  split; [by intros [->|[? _]]|]. intros Hx.
  destruct (decide (x = s)) as [->|Hne]; [by left|by right].
Qed.

Lemma remove_then_add_restores_witness :
  collision_free 3 (added demo_calls) ∧
  "server2" ∈ servers (run demo_calls (constructor 3)) ∧
  snd (addServer "server2" (snd (removeServer "server2"
                                   (run demo_calls (constructor 3)))))
  = run demo_calls (constructor 3).
Proof.
  assert (collision_free 3 (added demo_calls)) as Hfree by by_computation.
  assert ("server2" ∈ servers (run demo_calls (constructor 3))) as Hin
    by by_computation.
  split_and!; [exact Hfree|exact Hin|].
  exact (remove_then_add_restores 3 demo_calls "server2" Hfree Hin).
Defined.

Lemma placed_comm s t n (m : gmap Z string) :
  Forall (.∉ positions t n) (positions s n) →
  placed t n (placed s n m) = placed s n (placed t n m).
Proof.
  intros Hdisj. rewrite Forall_forall in Hdisj. apply map_eq. intros p.
  rewrite !lookup_placed.
  destruct (decide (p ∈ positions t n)) as [Ht|Ht],
           (decide (p ∈ positions s n)) as [Hs|Hs]; try done.
  by destruct (Hdisj p Hs).
Qed.

Lemma dom_placed s n (m : gmap Z string) :
  dom (placed s n m) = list_to_set (positions s n) ∪ dom m.
Proof.
  apply set_eq. intros p.
  rewrite elem_of_union, elem_of_list_to_set, !elem_of_dom, lookup_placed.
  destruct (decide _) as [Hp|Hp]; split; eauto. by intros [?|?].
Qed.

(** X9: two [addServer] calls in either order register the same servers
    and leave the same sorted positions; when the two servers share no
    virtual-node position the whole state is the same. *)
Theorem addServer_order (this : ConsistentHash) (s t : string) :
  servers (snd (addServer t (snd (addServer s this))))
  = servers (snd (addServer s (snd (addServer t this)))) ∧
  sortedPositions (snd (addServer t (snd (addServer s this))))
  = sortedPositions (snd (addServer s (snd (addServer t this)))) ∧
  (Forall (.∉ positions t (virtualNodes this)) (positions s (virtualNodes this)) →
   snd (addServer t (snd (addServer s this)))
   = snd (addServer s (snd (addServer t this)))).
Proof.
  destruct (decide (s = t)) as [->|Hne]; [done|].
  rewrite (addServer_eq s this), (addServer_eq t this). cbn [snd].
  destruct (decide (s ∈ servers this)) as [Hs|Hs],
           (decide (t ∈ servers this)) as [Ht|Ht];
    rewrite !addServer_eq; cbn [snd virtualNodes ring servers].
  - by rewrite !decide_True by done.
  - rewrite (decide_True (P := s ∈ {[t]} ∪ servers this))
      by (apply elem_of_union; by right).
    by rewrite (decide_False (P := t ∈ servers this)) by done.
  - rewrite (decide_True (P := t ∈ {[s]} ∪ servers this))
      by (apply elem_of_union; by right).
    by rewrite (decide_False (P := s ∈ servers this)) by done.
  - rewrite !decide_False.
    2:{ intros [?%elem_of_singleton|?]%elem_of_union; done. }
    2:{ intros [?%elem_of_singleton|?]%elem_of_union; done. }
    cbn. split_and!.
    + apply set_eq. intros x. rewrite !elem_of_union. tauto.
    + do 2 f_equal. rewrite !dom_placed. apply set_eq. intros x.
      rewrite !elem_of_union. tauto.
    + intros Hdisj. rewrite (placed_comm s t) by done. f_equal.
      apply set_eq. intros x. rewrite !elem_of_union. tauto.
Qed.

Lemma addServer_order_witness :
  Forall (.∉ positions "server5" (virtualNodes demo))
    (positions "server4" (virtualNodes demo)) ∧
  snd (addServer "server5" (snd (addServer "server4" demo)))
  = snd (addServer "server4" (snd (addServer "server5" demo))).
Proof.
  assert (Forall (.∉ positions "server5" (virtualNodes demo))
            (positions "server4" (virtualNodes demo))) as Hdisj by by_computation.
  split; [exact Hdisj|].
  exact (proj2 (proj2 (addServer_order demo "server4" "server5")) Hdisj).
Defined.

(** X10: when no two different added servers share a virtual-node position,
    every registered server holds each of its [virtualNodes] positions. *)
Theorem registered_servers_hold_their_nodes (n : Z) (calls : list call)
    (s : string) (i : Z) :
  collision_free n (added calls) →
  s ∈ servers (run calls (constructor n)) →
  0 ≤ i < n →
  ring (run calls (constructor n)) !! hash (virtualKey s i) = Some s.
Proof.
  intros Hfree Hin Hi.
  destruct (registered_hold_positions n (added calls) calls Hfree) as [_ Hhold];
    [done|].
  apply Hhold; [done|]. apply elem_of_positions. by exists i.
Qed.

Lemma registered_servers_hold_their_nodes_witness :
  collision_free 3 (added demo_calls) ∧
  "server2" ∈ servers (run demo_calls (constructor 3)) ∧ 0 ≤ 2 < 3 ∧
  ring (run demo_calls (constructor 3)) !! hash (virtualKey "server2" 2)
  = Some "server2"%string.
Proof.
  assert (collision_free 3 (added demo_calls)) as Hfree by by_computation.
  assert ("server2" ∈ servers (run demo_calls (constructor 3))) as Hin
    by by_computation.
  split_and!; [exact Hfree|exact Hin|lia|lia|].
  exact (registered_servers_hold_their_nodes 3 demo_calls "server2" 2 Hfree Hin
           ltac:(lia)).
Defined.

Lemma size_list_to_set_le (l : list Z) :
  (size (list_to_set l : gset Z) ≤ length l)%nat.
Proof.
  induction l as [|x l IH]; cbn [list_to_set length].
  - by rewrite size_empty.
  - rewrite size_union_alt, size_singleton.
    pose proof (subseteq_size (list_to_set l ∖ {[x]}) (list_to_set l : gset Z)
                  ltac:(apply subseteq_difference_l; done)). lia.
Qed.

Lemma length_bind_const {A B : Type} (f : A → list B) (k : nat) (l : list A) :
  (∀ x, length (f x) = k) → length (l ≫= f) = (length l * k)%nat.
Proof.
  intros Hf. induction l as [|x l IH]; [done|].
  cbn. rewrite length_app, Hf, IH. lia.
Qed.

(** X11: in every reachable state the ring has at most [virtualNodes]
    entries per registered server. *)
Theorem ring_size_bound (n : Z) (calls : list call) :
  (size (ring (run calls (constructor n)))
   ≤ size (servers (run calls (constructor n))) * Z.to_nat n)%nat.
Proof.
  pose proof (ring_ok_run n calls) as Hok.
  set (this := run calls (constructor n)) in *.
  set (L := elements (servers this) ≫= (λ s, positions s n)).
  rewrite <-size_dom.
  etrans; [apply (subseteq_size _ (list_to_set L : gset Z))|].
  - intros p [s Hp]%elem_of_dom. apply (ok_owner _ _ Hok) in Hp as [Hs Hp].
    apply elem_of_list_to_set, list_elem_of_bind. exists s. split; [done|].
    by apply elem_of_elements.
  - etrans; [apply size_list_to_set_le|]. unfold L.
    rewrite (length_bind_const _ (Z.to_nat n)); [done|].
    intros s. unfold positions. by rewrite length_fmap, length_seqZ.
Qed.

(** *** The counts of [getDistribution] add up *)

Lemma add_count_comm x1 x2 y :
  add_count x1 (add_count x2 y) = add_count x2 (add_count x1 y).
Proof. destruct x1, x2, y; cbn; try done. f_equal. lia. Qed.

Lemma total_insert (d : gmap string jsnum) t x :
  d !! t = None → total (<[t := x]> d) = add_count x (total d).
Proof.
  intros Ht. unfold total.
  rewrite (map_fold_insert_L (λ _, add_count)); [done| |done].
  intros. apply add_count_comm.
Qed.

Lemma total_zeros (S : gset string) : total (gset_to_gmap (Num 0) S) = Num 0.
Proof.
  induction S as [|s S Hs IH] using set_ind_L.
  - by rewrite gset_to_gmap_empty.
  - rewrite gset_to_gmap_union_singleton, total_insert, IH; [done|].
    by apply lookup_gset_to_gmap_None.
Qed.

Lemma total_count_up (d : gmap string jsnum) t z c :
  d !! t = Some (Num z) → total d = Num c →
  total (<[t := Num (z + 1)]> d) = Num (c + 1).
Proof.
  intros Ht Hc. rewrite <-(insert_delete_id d t (Num z)) in Hc by done.
  rewrite total_insert in Hc by apply lookup_delete_eq.
  rewrite <-insert_delete_eq, total_insert by apply lookup_delete_eq.
  destruct (total (delete t d)) as [a|]; cbn in *; [|done].
  injection Hc as <-. f_equal. lia.
Qed.

Lemma count_keys_total this (S : gset string) (keys : list string) :
  "__proto__"%string ∉ S →
  (∀ k, ∃ s, (s ∈ S ∨ s = "__proto__"%string) ∧
             getServer k this = (Normal (Some s), this)) →
  ∀ (d : gmap string jsnum) (c : Z),
    (∀ s, s ∈ S → ∃ z, d !! s = Some (Num z)) → total d = Num c →
    ∃ d', count_keys keys d this = (Normal d', this) ∧
          total d' = Num (c + Z.of_nat (length
            (filter (λ k, fst (getServer k this)
                          ≠ Normal (Some "__proto__"%string)) keys))).
Proof.
  intros Hproto Hget. induction keys as [|k keys IH]; intros d c Hd Hc.
  - exists d. split; [done|]. rewrite Hc. cbn. f_equal. lia.
  - destruct (Hget k) as (t & [Ht| ->] & Hk).
    + assert (t ≠ "__proto__"%string) as Hne by (by intros ->).
      destruct (Hd t Ht) as [z Hz].
      assert (count_keys (k :: keys) d this
              = count_keys keys (<[t := Num (z + 1)]> d) this) as ->.
      { cbn [count_keys]. unfold bind at 1. rewrite Hk.
        rewrite count_up_other by done. by rewrite Hz. }
      destruct (IH (<[t := Num (z + 1)]> d) (c + 1)) as (d' & Hrun & Htot).
      * intros s Hs. destruct (decide (s = t)) as [->|Hst].
        -- rewrite lookup_insert_eq. eauto.
        -- rewrite lookup_insert_ne by done. by apply Hd.
      * by apply total_count_up.
      * exists d'. split; [done|]. rewrite Htot, filter_cons, Hk. cbn [fst].
        rewrite decide_True by (by intros [= ->]). cbn [length]. f_equal. lia.
    + assert (count_keys (k :: keys) d this = count_keys keys d this) as ->.
      { cbn [count_keys]. unfold bind at 1. rewrite Hk.
        by rewrite count_up_proto. }
      destruct (IH d c Hd Hc) as (d' & Hrun & Htot).
      exists d'. split; [done|]. rewrite Htot, filter_cons, Hk. cbn [fst].
      by rewrite decide_False by (by intros ?).
Qed.

Lemma filter_all {A : Type} (P : A → Prop) `{!∀ x, Decision (P x)} (l : list A) :
  (∀ x, x ∈ l → P x) → filter P l = l.
Proof.
  induction l as [|x l IH]; intros Hall; [done|].
  rewrite filter_cons, decide_True by (apply Hall; by left).
  f_equal. apply IH. intros y Hy. apply Hall. by right.
Qed.

(** X12: in a reachable state with a ring entry the counts that
    [getDistribution] returns add up to the number of sample keys that
    [getServer] gives to a server other than [__proto__]; when no server
    of that name is registered they add up to all 10000 sample keys, none
    lost to [NaN] or to an ["undefined"] property. *)
Theorem getDistribution_total (n : Z) (calls : list call) :
  ring (run calls (constructor n)) ≠ ∅ →
  ∃ d, fst (getDistribution (run calls (constructor n))) = Normal d ∧
       total d = Num (Z.of_nat (length
         (filter (λ k, fst (getServer k (run calls (constructor n)))
                       ≠ Normal (Some "__proto__"%string)) sampleKeys))) ∧
       ("__proto__"%string ∉ servers (run calls (constructor n)) →
        total d = Num 10000).
Proof.
  intros Hne. pose proof (ring_ok_run n calls) as Hok.
  set (this := run calls (constructor n)) in *.
  unfold getDistribution, bind at 1, field at 1. rewrite zero_counts_eq.
  destruct (count_keys_total this (servers this ∖ {["__proto__"%string]})
              sampleKeys)
    with (d := gset_to_gmap (Num 0) (servers this ∖ {["__proto__"%string]}))
         (c := 0)
    as (d & Hrun & Htot).
  - intros [_ Hp]%elem_of_difference. apply Hp. by apply elem_of_singleton.
  - intros k.
    destruct (getServer_some n this k Hok Hne) as (p & s & _ & _ & Hs & Hget).
    exists s. split; [|done].
    destruct (decide (s = "__proto__"%string)) as [->|Hsp]; [by right|].
    left. apply elem_of_difference. split; [done|].
    by intros ?%elem_of_singleton.
  - intros s Hs. exists 0. by rewrite lookup_gset_to_gmap_Some.
  - apply total_zeros.
  - exists d. rewrite Hrun. split; [done|]. rewrite Htot. split; [done|].
    intros Hproto. rewrite filter_all.
    + unfold sampleKeys. rewrite length_fmap, length_seqZ.
      by rewrite Z2Nat.id by lia.
    + intros k _.
      destruct (getServer_some n this k Hok Hne) as (p & s & _ & _ & Hs & Hget).
      rewrite Hget. cbn [fst]. by intros [= ->].
Qed.

Lemma getDistribution_total_witness :
  ring (run demo_calls (constructor 3)) ≠ ∅ ∧
  ("__proto__"%string ∉ servers (run demo_calls (constructor 3))) ∧
  ∃ d, fst (getDistribution (run demo_calls (constructor 3))) = Normal d ∧
       total d = Num 10000.
Proof.
  assert ("__proto__"%string ∉ servers (run demo_calls (constructor 3)))
    as Hproto by by_computation.
  split; [exact demo_ring_nonempty|]. split; [exact Hproto|].
  destruct (getDistribution_total 3 demo_calls demo_ring_nonempty)
    as (d & Hd & _ & Htot).
  exists d. split; [exact Hd|exact (Htot Hproto)].
Defined.

(** What [getDistribution] returns in a state that satisfies the invariant
    and has a ring entry. *)
Lemma getDistribution_result n this :
  ring_ok n this → ring this ≠ ∅ →
  ∃ d, fst (getDistribution this) = Normal d ∧
       dom d = servers this ∖ {["__proto__"%string]} ∧
       total d = Num (Z.of_nat (length
         (filter (λ k, fst (getServer k this)
                       ≠ Normal (Some "__proto__"%string)) sampleKeys))).
Proof.
  intros Hok Hne.
  assert ("__proto__"%string ∉ servers this ∖ {["__proto__"%string]}) as Hproto.
  { intros [_ Hp]%elem_of_difference. apply Hp. by apply elem_of_singleton. }
  assert (∀ k, ∃ s, (s ∈ servers this ∖ {["__proto__"%string]}
                     ∨ s = "__proto__"%string) ∧
                    getServer k this = (Normal (Some s), this)) as Hget.
  { intros k.
    destruct (getServer_some n this k Hok Hne) as (p & s & _ & _ & Hs & Hget).
    exists s. split; [|done].
    destruct (decide (s = "__proto__"%string)) as [->|Hsp]; [by right|].
    left. apply elem_of_difference. split; [done|].
    by intros ?%elem_of_singleton. }
  unfold getDistribution, bind at 1, field at 1. rewrite zero_counts_eq.
  destruct (count_keys_counts this _ sampleKeys Hproto Hget
              (gset_to_gmap (Num 0) (servers this ∖ {["__proto__"%string]}))
              (λ _ : string, 0))
    as (d & Hrun & Hdom & _).
  { apply dom_gset_to_gmap. }
  { intros s Hs. by rewrite lookup_gset_to_gmap_Some. }
  destruct (count_keys_total this _ sampleKeys Hproto Hget
              (gset_to_gmap (Num 0) (servers this ∖ {["__proto__"%string]})) 0)
    as (d' & Hrun' & Htot).
  { intros s Hs. exists 0. by rewrite lookup_gset_to_gmap_Some. }
  { apply total_zeros. }
  rewrite Hrun in Hrun'. injection Hrun' as <-.
  exists d. by rewrite Hrun.
Qed.

(** C9 fails on this code for a server named [__proto__]: with [a] and
    [__proto__] registered in a ring of three virtual nodes each,
    [getDistribution] returns an object whose only own property is [a]:
    there is no count for the registered server [__proto__], and the
    sample keys that [getServer] gives to it, ["key_0"] for one, are
    counted nowhere, so the counts add up to less than the 10000 sample
    keys.  No field changes. *)
Theorem getDistribution_loses_proto_counts :
  "__proto__"%string ∈ servers (run proto_calls (constructor 3)) ∧
  "key_0"%string ∈ sampleKeys ∧
  fst (getServer "key_0" (run proto_calls (constructor 3)))
  = Normal (Some "__proto__"%string) ∧
  (∃ d, fst (getDistribution (run proto_calls (constructor 3))) = Normal d ∧
        dom d = {["a"%string]} ∧
        d !! "__proto__"%string = None ∧
        ∃ z, total d = Num z ∧ z < 10000) ∧
  snd (getDistribution (run proto_calls (constructor 3)))
  = run proto_calls (constructor 3).
Proof.
  assert ("key_0"%string ∈ sampleKeys) as Hkey.
  { unfold sampleKeys. apply list_elem_of_fmap. exists 0.
    split; [reflexivity|]. apply elem_of_seqZ. lia. }
  assert (fst (getServer "key_0" (run proto_calls (constructor 3)))
          = Normal (Some "__proto__"%string)) as Hserved
    by (vm_compute; reflexivity).
  split_and!; [by_computation|exact Hkey|exact Hserved| |apply getDistribution_frame].
  destruct (getDistribution_result 3 (run proto_calls (constructor 3)))
    as (d & Hd & Hdom & Htot);
    [apply ring_ok_run|by_computation|].
  assert (servers (run proto_calls (constructor 3)) ∖ {["__proto__"%string]}
          = {["a"%string]}) as Hnames by by_computation.
  rewrite Hnames in Hdom. exists d. split_and!; [done|done| |].
  - apply not_elem_of_dom. rewrite Hdom. by intros ?%elem_of_singleton.
  - eexists. split; [exact Htot|].
    pose proof (length_filter_lt
                  (λ k, fst (getServer k (run proto_calls (constructor 3)))
                        ≠ Normal (Some "__proto__"%string))
                  sampleKeys "key_0" Hkey) as Hlt.
    assert (Z.of_nat (length sampleKeys) = 10000) as Hlen.
    { unfold sampleKeys. rewrite length_fmap, length_seqZ. lia. }
    specialize (Hlt (λ Hno, Hno Hserved)). lia.
Qed.

(** X13: in every reachable state [showRing] writes the header and then one
    line per ring entry, in the order of [sortedPositions], each with the
    registered server that owns the position: no line reads
    [undefined] for a missing entry. *)
Theorem showRing_lists_every_entry (n : Z) (calls : list call) :
  length (showRing (run calls (constructor n)))
  = S (size (ring (run calls (constructor n)))) ∧
  ∀ (i : nat) (p : Z),
    sortedPositions (run calls (constructor n)) !! i = Some p →
    ∃ s, ring (run calls (constructor n)) !! p = Some s ∧
         s ∈ servers (run calls (constructor n)) ∧
         showRing (run calls (constructor n)) !! S i
         = Some ("Position " +:+ pretty p +:+ ": " +:+ s).
Proof.
  pose proof (ring_ok_run n calls) as Hok.
  set (this := run calls (constructor n)) in *. split.
  - unfold showRing. cbn [length]. rewrite length_fmap. f_equal.
    rewrite (sortedPositions_eq n this Hok).
    rewrite (Permutation_length (merge_sort_Permutation _ _)).
    by rewrite <-size_dom.
  - intros i p Hp.
    destruct (proj1 (ok_keys _ _ Hok p)) as [s Hs].
    { by eapply list_elem_of_lookup_2. }
    exists s. split_and!; [done|by apply (ok_owner _ _ Hok p)|].
    unfold showRing. rewrite lookup_cons. cbn beta iota.
    rewrite list_lookup_fmap, Hp. cbn [fmap option_fmap option_map].
    by rewrite Hs.
Qed.

Lemma getServerSimple_eq (key : string) (numServers : Z) :
  1 ≤ numServers →
  getServerSimple key numServers
  = "server" +:+ pretty (simpleHash key mod numServers + 1).
Proof.
  intros Hn. destruct (hash_parseInt key) as [_ [Hh _]].
  unfold getServerSimple, js_rem, simpleHash in *.
  rewrite decide_False by lia. cbn [js_succ js_show].
  by rewrite Z.rem_mod_nonneg by lia.
Qed.

(** X14: for one or more servers [getServerSimple] names the server
    numbered [hash mod numServers + 1], a number from 1 to [numServers];
    for zero servers the remainder is [NaN] and it answers ["serverNaN"]. *)
Theorem getServerSimple_range (key : string) (numServers : Z) :
  (1 ≤ numServers →
   1 ≤ simpleHash key mod numServers + 1 ≤ numServers ∧
   getServerSimple key numServers
   = "server" +:+ pretty (simpleHash key mod numServers + 1)) ∧
  getServerSimple key 0 = "serverNaN"%string.
Proof.
  split; [|done]. intros Hn. split; [|by apply getServerSimple_eq].
  pose proof (Z.mod_pos_bound (simpleHash key) numServers). lia.
Qed.

Lemma getServerSimple_range_witness :
  1 ≤ 3 ∧ getServerSimple "event_1234" 3 = "server3"%string ∧
  1 ≤ simpleHash "event_1234" mod 3 + 1 ≤ 3 ∧
  getServerSimple "event_1234" 3
  = "server" +:+ pretty (simpleHash "event_1234" mod 3 + 1).
Proof.
  split; [lia|]. split; [by vm_compute|].
  exact (proj1 (getServerSimple_range "event_1234" 3) ltac:(lia)).
Defined.

(** X15: going from [n] to [n + 1] servers, [getServerSimple] keeps a key
    on its server exactly when the hash modulo [n * (n + 1)] is below [n]:
    [n] residues out of [n * (n + 1)], one key in [n + 1]. *)
Theorem getServerSimple_keeps_iff (key : string) (n : Z) :
  1 ≤ n →
  getServerSimple key n = getServerSimple key (n + 1)
  ↔ simpleHash key mod (n * (n + 1)) < n.
Proof.
  intros Hn.
  rewrite (getServerSimple_eq key n), (getServerSimple_eq key (n + 1)) by lia.
  set (h := simpleHash key).
  pose proof (Z.div_mod h n ltac:(lia)) as Hdn.
  pose proof (Z.mod_pos_bound h n ltac:(lia)) as Hbn.
  pose proof (Z.div_mod h (n + 1) ltac:(lia)) as Hdm.
  pose proof (Z.mod_pos_bound h (n + 1) ltac:(lia)) as Hbm.
  pose proof (Z.div_mod h (n * (n + 1)) ltac:(nia)) as Hdp.
  pose proof (Z.mod_pos_bound h (n * (n + 1)) ltac:(nia)) as Hbp.
  split.
  - intros Heq%(inj (String.app "server"))%(inj pretty).
    assert (h mod n = h mod (n + 1)) as Hr by lia.
    set (a := h / n) in *. set (b := h / (n + 1)) in *.
    assert (h = n * (n + 1) * (a - b) + h mod n) as Hh by nia.
    rewrite Hh at 1.
    rewrite (Z.mul_comm (n * (n + 1))), Z.add_comm, Z_mod_plus_full.
    rewrite Z.mod_small by nia. lia.
  - intros Hlt. do 2 f_equal.
    set (q := h / (n * (n + 1))) in *. set (r := h mod (n * (n + 1))) in *.
    assert (h mod n = r) as ->.
    { rewrite Hdp. replace (n * (n + 1) * q + r) with (r + (n + 1) * q * n) by lia.
      rewrite Z_mod_plus_full. apply Z.mod_small. lia. }
    assert (h mod (n + 1) = r) as ->; [|done].
    rewrite Hdp. replace (n * (n + 1) * q + r) with (r + n * q * (n + 1)) by lia.
    rewrite Z_mod_plus_full. apply Z.mod_small. lia.
Qed.

(** ["key_14"] has a hash that is 0 modulo 12 and stays on [server1];
    ["event_1234"] has one that is 5 modulo 12 and moves. *)
Lemma getServerSimple_keeps_iff_witness :
  1 ≤ 3 ∧ simpleHash "key_14" mod (3 * (3 + 1)) < 3 ∧
  getServerSimple "key_14" 3 = getServerSimple "key_14" (3 + 1) ∧
  getServerSimple "event_1234" 3 ≠ getServerSimple "event_1234" (3 + 1).
Proof.
  assert (simpleHash "key_14" mod (3 * (3 + 1)) < 3) as Hlt
    by (vm_compute; reflexivity).
  assert (¬ simpleHash "event_1234" mod (3 * (3 + 1)) < 3) as Hge
    by (vm_compute; discriminate).
  split_and!; [lia|exact Hlt| |].
  - exact (proj2 (getServerSimple_keeps_iff "key_14" 3 ltac:(lia)) Hlt).
  - intros Heq. apply Hge.
    exact (proj1 (getServerSimple_keeps_iff "event_1234" 3 ltac:(lia)) Heq).
Defined.

(** *** Virtual-node keys *)

Lemma append_cons c (s t : string) : String c s +:+ t = String c (s +:+ t).
Proof. reflexivity. Qed.

Lemma append_nil (t : string) : "" +:+ t = t.
Proof. reflexivity. Qed.

Lemma pretty_N_char_no_colon k : pretty_N_char k ≠ colon.
Proof. compute. intros H. by repeat (discriminate || case_match). Qed.

Lemma pretty_N_go_no_colon x s : no_colon s → no_colon (pretty_N_go x s).
Proof.
  revert s. induction (N.lt_wf_0 x) as [x _ IH]; intros s Hs.
  destruct (decide (0 < x)%N) as [Hx|Hx].
  - rewrite pretty_N_go_step by done. apply IH.
    + by apply N.div_lt.
    + split; [apply pretty_N_char_no_colon|done].
  - assert (x = 0%N) as -> by lia. by rewrite pretty_N_go_0.
Qed.

Lemma pretty_Z_no_colon (i : Z) : 0 ≤ i → no_colon (pretty i).
Proof.
  intros Hi. destruct i as [|p|p]; [by compute|..|lia].
  unfold pretty, pretty_Z, pretty, pretty_positive, pretty, pretty_N.
  rewrite decide_False by done. by apply pretty_N_go_no_colon.
Qed.

Lemma no_colon_after_colon (t e : string) : ¬ no_colon (t +:+ String colon e).
Proof.
  induction t as [|c t IH].
  - rewrite append_nil. cbn. by intros [? _].
  - rewrite append_cons. cbn. by intros [_ ?].
Qed.

Lemma colon_split_unique (s t d e : string) :
  no_colon d → no_colon e →
  s +:+ String colon d = t +:+ String colon e → s = t ∧ d = e.
Proof.
  intros Hd He. revert t. induction s as [|c s IH]; intros [|c' t];
    rewrite ?append_nil, ?append_cons; intros Heq.
  - by injection Heq as ->.
  - injection Heq as <- ->. by destruct (no_colon_after_colon t e).
  - injection Heq as -> <-. by destruct (no_colon_after_colon s d).
  - injection Heq as -> Heq. by destruct (IH t Heq) as [-> ->].
Qed.

(** X16: the keys [`${server}:${i}`] of different virtual nodes are
    different strings: equal keys come from the same server and the same
    index.  Two virtual nodes can share a position only through [hash]. *)
Theorem virtualKey_inj (s t : string) (i j : Z) :
  0 ≤ i → 0 ≤ j → virtualKey s i = virtualKey t j → s = t ∧ i = j.
Proof.
  intros Hi Hj. unfold virtualKey. rewrite !append_cons, !append_nil.
  intros [-> Hp]%colon_split_unique; [|by apply pretty_Z_no_colon..].
  split; [done|]. by apply (inj pretty).
Qed.

Lemma virtualKey_inj_witness :
  0 ≤ 2 ∧ virtualKey "a:1" 2 = "a:1:2"%string ∧
  virtualKey "a:1" 2 = virtualKey "a:1" 2 ∧
  ("a:1"%string = "a:1"%string ∧ 2 = 2) ∧
  virtualKey "a" 12 ≠ virtualKey "a:1" 2.
Proof.
  split; [lia|]. split; [by vm_compute|]. split; [reflexivity|]. split.
  - exact (virtualKey_inj "a:1" "a:1" 2 2 ltac:(lia) ltac:(lia) eq_refl).
  - intros Heq.
    destruct (virtualKey_inj "a" "a:1" 12 2 ltac:(lia) ltac:(lia) Heq) as [Hs _].
    discriminate Hs.
Defined.

(** *** Boundary cases of the lookup and the frame of the membership calls *)

(** X17: a key whose hash is itself a ring position is served by the owner
    of that position: the comparison [>=] of the lookup is inclusive. *)
Theorem key_on_position_goes_to_owner (n : Z) (calls : list call)
    (key s : string) :
  ring (run calls (constructor n)) !! hash key = Some s →
  fst (getServer key (run calls (constructor n))) = Normal (Some s).
Proof.
  intros Hs. pose proof (ring_ok_run n calls) as Hok.
  set (this := run calls (constructor n)) in *.
  assert (ring this ≠ ∅) as Hne.
  { intros He. by rewrite He, lookup_empty in Hs. }
  destruct (getServer_some n this key Hok Hne) as (p & t & Hp & Ht & _ & Hget).
  assert (successor_in (sortedPositions this) (hash key) (hash key)) as Hh.
  { split; [apply (ok_keys _ _ Hok); eauto|]. left. split; [lia|]. by intros. }
  rewrite (successor_in_unique _ _ _ _ Hp Hh) in Ht.
  rewrite Hget. cbn. congruence.
Qed.

Lemma key_on_position_goes_to_owner_witness :
  ring (run demo_calls (constructor 3)) !! hash "server1:0" = Some "server1"%string ∧
  fst (getServer "server1:0" (run demo_calls (constructor 3)))
  = Normal (Some "server1"%string).
Proof.
  assert (ring (run demo_calls (constructor 3)) !! hash "server1:0"
          = Some "server1"%string) as Hs by (vm_compute; reflexivity).
  split; [exact Hs|].
  exact (key_on_position_goes_to_owner 3 demo_calls "server1:0" "server1" Hs).
Defined.

(** X18: in every reachable state [getServer] throws exactly when [ring]
    has no entry, that is when [sortedPositions] is empty, and the message
    is ["No servers available"]; with no server registered the ring has no
    entry. *)
Theorem getServer_throws_on_empty_ring (n : Z) (calls : list call)
    (key msg : string) :
  (fst (getServer key (run calls (constructor n))) = Throw msg
   ↔ ring (run calls (constructor n)) = ∅ ∧ msg = "No servers available"%string) ∧
  (ring (run calls (constructor n)) = ∅
   ↔ sortedPositions (run calls (constructor n)) = []) ∧
  (servers (run calls (constructor n)) = ∅ →
   ring (run calls (constructor n)) = ∅).
Proof.
  pose proof (ring_ok_run n calls) as Hok.
  destruct (getServer_throws_iff_ring_empty n calls key) as [Hthrow Hnone].
  set (this := run calls (constructor n)) in *. split_and!; [split| |done].
  - intros Hmsg. destruct (decide (ring this = ∅)) as [He|Hne].
    + split; [done|]. rewrite getServer_empty in Hmsg.
      * by injection Hmsg as <-.
      * by apply (sortedPositions_nil_iff n _ Hok).
    + destruct (getServer_some n this key Hok Hne) as (p & s & _ & _ & _ & Hget).
      by rewrite Hget in Hmsg.
  - intros [He ->]. by apply Hthrow.
  - symmetry. apply (sortedPositions_nil_iff n _ Hok).
Qed.

(** X19: in any state, [addServer(s)] and [removeServer(s)] leave every
    ring entry outside the virtual-node positions of [s] as it was, and
    neither changes [virtualNodes]; [addServer(s)] of a server that is not
    registered puts [s] at each of these positions. *)
Theorem membership_calls_frame (this : ConsistentHash) (s : string) (p : Z) :
  (p ∉ positions s (virtualNodes this) →
   ring (snd (addServer s this)) !! p = ring this !! p ∧
   ring (snd (removeServer s this)) !! p = ring this !! p) ∧
  (p ∈ positions s (virtualNodes this) → s ∉ servers this →
   ring (snd (addServer s this)) !! p = Some s) ∧
  virtualNodes (snd (addServer s this)) = virtualNodes this ∧
  virtualNodes (snd (removeServer s this)) = virtualNodes this.
Proof.
  rewrite addServer_eq, removeServer_eq. cbn [snd].
  destruct (decide (s ∈ servers this)) as [Hin|Hin]; cbn [ring virtualNodes];
    split_and!; try done.
  - intros Hp. split; [done|]. rewrite lookup_cleared. by rewrite decide_False.
  - intros Hp. split; [|done]. rewrite lookup_placed. by rewrite decide_False.
  - intros Hp _. rewrite lookup_placed. by rewrite decide_True.
Qed.

Lemma membership_calls_frame_witness :
  (507543037 ∉ positions "server4" (virtualNodes demo)) ∧
  ring (snd (addServer "server4" demo)) !! 507543037 = ring demo !! 507543037 ∧
  858007777 ∈ positions "server4" (virtualNodes demo) ∧
  ("server4" ∉ servers demo) ∧
  ring (snd (addServer "server4" demo)) !! 858007777 = Some "server4"%string.
Proof.
  assert (507543037 ∉ positions "server4" (virtualNodes demo)) as Hout
    by by_computation.
  assert (858007777 ∈ positions "server4" (virtualNodes demo)) as Hin
    by by_computation.
  assert ("server4" ∉ servers demo) as Hnew by by_computation.
  split_and!; [exact Hout| |exact Hin|exact Hnew|].
  - exact (proj1 (proj1 (membership_calls_frame demo "server4" 507543037) Hout)).
  - exact (proj1 (proj2 (membership_calls_frame demo "server4" 858007777))
             Hin Hnew).
Defined.
